(** * audio-recorder: the websocket voice receiver of [app.py] and [main.py]

    A shallow embedding of the two variants of the service
    ([VoiceReceiverService] and the [get_audio] websocket handler) and the
    properties of the per-client streaming session: chunk accumulation,
    finalize on timeout or on the close token, and the cleanup on exit.

    Conventions.
    - [bytes] is a list of [byte]; a Python [dict] is a [gmap].
    - A coroutine is modelled by the state transformer it performs between two
      suspension points; one connection is run against the finite list of
      results that [asyncio.wait_for(websocket.receive(), timeout=5.0)]
      delivers to it, in order. When the list is used up and the loop has not
      been left, the handler is suspended in [receive].
    - Effects are threaded through a state-and-exception monad. Opening a file
      for writing raises [OSError] on the paths of [unwritable]; the handshake
      and the logging calls do not raise.
    - The value under ["bytes"] is a bytes object and the value under ["text"]
      a string, as the server delivers them.
    - Samples are binary32 values given by their bit patterns; the machine is
      little-endian. *)

From Stdlib Require Import ZArith List Lia Bool.
From Stdlib Require Import Init.Byte.
From Stdlib Require Import Floats.SpecFloat.
From stdpp Require Import base option list strings gmap.

Open Scope string_scope.
Open Scope Z_scope.
Open Scope list_scope.

Abbreviation bytes := (list byte).

(** ** Exceptions and the state-and-exception monad *)

(** The exceptions the modelled code can meet. [CancelledError] derives from
    [BaseException] (Python 3.8 and later), the others from [Exception]. *)
Inductive exn :=
| OSError (filename : string)
| ValueError
| RuntimeError
| WebSocketDisconnect
| CancelledError.

Definition is_Exception (e : exn) : bool :=
  match e with
  | CancelledError => false
  | _ => true
  end.

Inductive result (A : Type) :=
| Return (a : A)
| Raise (e : exn).
Arguments Return {A} a.
Arguments Raise {A} e.

Definition M (S A : Type) : Type := S -> result A * S.

Definition ret {S A} (a : A) : M S A := fun s => (Return a, s).

Definition raise {S A} (e : exn) : M S A := fun s => (Raise e, s).

Definition bind {S A B} (m : M S A) (k : A -> M S B) : M S B :=
  fun s =>
    match m s with
    | (Return a, s') => k a s'
    | (Raise e, s') => (Raise e, s')
    end.

Definition gets {S A} (f : S -> A) : M S A := fun s => (Return (f s), s).

Definition modify {S} (f : S -> S) : M S unit := fun s => (Return tt, f s).

(** [try: m except Exception as e: h e]: an exception that is not an
    [Exception] passes through. *)
Definition try_except_Exception {S A} (m : M S A) (h : exn -> M S A) : M S A :=
  fun s =>
    match m s with
    | (Return a, s') => (Return a, s')
    | (Raise e, s') => if is_Exception e then h e s' else (Raise e, s')
    end.

Declare Scope monad_scope.
Delimit Scope monad_scope with monad.
Notation "x <- m ;; k" := (bind m (fun x => k))
  (at level 100, m at next level, right associativity) : monad_scope.
Notation "m ;; k" := (bind m (fun _ => k))
  (at level 100, right associativity) : monad_scope.
Open Scope monad_scope.

(** ** The operating system seen by the service: files and the trace *)

(** What [wave.open(filename, "wb")] has been told by the time it is closed. *)
Record Wave_write := {
  nchannels : Z;
  sampwidth : Z;
  framerate : Z;
  frames : bytes
}.

Inductive file :=
| RawFile (content : bytes)
| WavFile (w : Wave_write).

Inductive log_record :=
| Debug_received (len : nat) (client_id : string)
| Debug_received_from (client_id : string)
| Debug_saved (client_id filename : string)
| Error_saving (e : exn)
| Debug_established (client_id : string)
| Error_closed (client_id : string) (e : exn)
| Error_traceback (e : exn).

(** The observable actions, oldest first. [Decoded] is a run of the codec on a
    stream of the given container format; [Unregistered] marks one execution
    of the [finally] block of the handler. *)
Inductive event :=
| Log (r : log_record)
| Written (filename : string) (f : file)
| Decoded (format : string) (stream : bytes)
| Unregistered (client_id : string).

(** [unwritable] holds the paths for which opening for writing raises
    [OSError] (a directory, a missing permission). *)
Record os := {
  files : gmap string file;
  unwritable : gset string;
  trace : list event
}.

Definition emit (e : event) (o : os) : os :=
  {| files := files o; unwritable := unwritable o; trace := trace o ++ [e] |}.

Definition store (filename : string) (f : file) (o : os) : os :=
  {| files := <[filename := f]> (files o);
     unwritable := unwritable o;
     trace := trace o ++ [Written filename f] |}.

(** ** Bytes, words and binary32 samples *)

Definition b_join (chunks : list bytes) : bytes := concat chunks.

Definition byte_to_Z (b : byte) : Z := Z.of_N (Byte.to_N b).

Definition byte_of_Z (z : Z) : byte :=
  match Byte.of_N (Z.to_N (z mod 256)) with
  | Some b => b
  | None => x00
  end.

(** Four bytes, least significant first, as an unsigned 32-bit word. *)
Definition word_of_le (b0 b1 b2 b3 : byte) : Z :=
  byte_to_Z b0 + 256 * byte_to_Z b1 + 65536 * byte_to_Z b2 + 16777216 * byte_to_Z b3.

Definition le_of_word (z : Z) : bytes :=
  [byte_of_Z z; byte_of_Z (z / 256); byte_of_Z (z / 65536); byte_of_Z (z / 16777216)].

(** [np.frombuffer(buf, dtype=np.float32)]: the bit patterns of the samples;
    [ValueError] (here [None]) when the size is not a multiple of 4. *)
Fixpoint frombuffer_float32 (buf : bytes) : option (list Z) :=
  match buf with
  | [] => Some []
  | b0 :: b1 :: b2 :: b3 :: rest =>
      match frombuffer_float32 rest with
      | Some ws => Some (word_of_le b0 b1 b2 b3 :: ws)
      | None => None
      end
  | _ => None
  end.

(** The value of a binary32 bit pattern. *)
Definition decode_binary32 (w : Z) : spec_float :=
  let s := Z.testbit w 31 in
  let e := Z.land (Z.shiftr w 23) 255 in
  let m := Z.land w (2 ^ 23 - 1) in
  if e =? 0 then
    match m with
    | Zpos p => S754_finite s p (-149)
    | _ => S754_zero s
    end
  else if e =? 255 then
    if m =? 0 then S754_infinity s else S754_nan
  else
    match m + 2 ^ 23 with
    | Zpos p => S754_finite s p (e - 150)
    | _ => S754_nan
    end.

(** Multiplication of binary32 values, rounding to nearest even. *)
Definition binary32_mul : spec_float -> spec_float -> spec_float := SFmul 24 128.

(** The Python integer 32767 as a binary32 value (bit pattern 0x46FFFE00). *)
Definition binary32_32767 : spec_float := S754_finite false 16776704 (-9).

(** The integer part of a finite value, towards zero. *)
Definition truncate (x : spec_float) : option Z :=
  match x with
  | S754_zero _ => Some 0
  | S754_finite s m e =>
      let a := if 0 <=? e then Zpos m * 2 ^ e else Zpos m / 2 ^ (- e) in
      Some (if s then - a else a)
  | S754_infinity _ | S754_nan => None
  end.

(** The C conversion of a float to a 32-bit integer is defined only when the
    truncated value fits; what it gives otherwise (NaN, infinities, values out
    of range) depends on the machine. *)
Class Platform := { cast_invalid : spec_float -> Z }.

(** x86-64: the "integer indefinite" value. *)
Definition x86_64 : Platform := {| cast_invalid := fun _ => - 2 ^ 31 |}.

Definition astype_int32 `{Platform} (x : spec_float) : Z :=
  match truncate x with
  | Some z => if (- 2 ^ 31 <=? z) && (z <? 2 ^ 31) then z else cast_invalid x
  | None => cast_invalid x
  end.

(** [ndarray.tobytes()] of an int32 array on a little-endian machine. *)
Definition tobytes (a : list Z) : bytes :=
  flat_map (fun z => le_of_word (z mod 2 ^ 32)) a.

(** One sample of [(data_np * 32767).astype(np.int32)]. *)
Definition scale_sample `{Platform} (w : Z) : Z :=
  astype_int32 (binary32_mul (decode_binary32 w) binary32_32767).

(** The slice [data[: len(data) // 4 * 4]]. *)
Definition whole_samples (data : bytes) : bytes :=
  take (length data / 4 * 4)%nat data.

(** The samples [np.frombuffer] yields on the slice. *)
Definition float32_samples (data : bytes) : list Z :=
  default [] (frombuffer_float32 (whole_samples data)).

(** What [save_wav] hands to the [wave] module. *)
Definition wav_of `{Platform} (data : bytes) : Wave_write :=
  {| nchannels := 1; sampwidth := 4; framerate := 16000;
     frames := tobytes (map scale_sample (float32_samples data)) |}.

(** ** The transport, as both variants see it *)

(** The connection object, by identity. *)
Definition WebSocket := nat.

(** The dict returned by [websocket.receive()]: the value under the key
    ["bytes"] and under the key ["text"], [None] when the key is absent. A
    disconnect message has neither. *)
Record message := {
  m_bytes : option bytes;
  m_text : option string
}.

(** One completion of [asyncio.wait_for(websocket.receive(), timeout=5.0)]. *)
Inductive received :=
| TimeoutError
| Message (m : message)
| Raised (e : exn).

(** How the [while True] loop stands once the given completions are consumed:
    left by [break], or suspended in the next [receive]. *)
Inductive loop_state := Break | Receiving.

(** How a run of the handler stands: returned, left by an exception that is
    not an [Exception], or still suspended in [receive]. *)
Inductive outcome :=
| Returned
| Propagated (e : exn)
| Suspended.

(** ** [app.py] *)

Module App.

Record VoiceReceiverService := {
  clients_audios : gmap string (list bytes)
}.

(** [__init__] *)
Definition init : VoiceReceiverService := {| clients_audios := ∅ |}.

(** The state a method runs in: its receiver and the operating system. *)
Record frame := {
  self : VoiceReceiverService;
  env : os
}.

Definition set_clients_audios (f : gmap string (list bytes) -> gmap string (list bytes))
  (s : frame) : frame :=
  {| self := {| clients_audios := f (clients_audios (self s)) |}; env := env s |}.

Definition set_env (f : os -> os) (s : frame) : frame :=
  {| self := self s; env := f (env s) |}.

Definition logging (r : log_record) : M frame unit := modify (set_env (emit (Log r))).

(** [with open(filename, "wb") as f: f.write(content)] and
    [with wave.open(filename, "wb") as wav_file: ...]. *)
Definition open_wb (filename : string) (f : file) : M frame unit :=
  fun s =>
    if decide (filename ∈ unwritable (env s))
    then (Raise (OSError filename), s)
    else (Return tt, set_env (store filename f) s).

(** [self.clients_audios.pop(client_id, None)] *)
Definition clients_audios_pop (client_id : string) : M frame (option (list bytes)) :=
  fun s => (Return (clients_audios (self s) !! client_id),
            set_clients_audios (delete client_id) s).

(** The MD5 digest of the chunk goes to the debug line only. *)
Definition process_audio_frame (data : bytes) (client_id : string) : M frame unit :=
  present <- gets (fun s => bool_decide (is_Some (clients_audios (self s) !! client_id))) ;;
  (if present then ret tt
   else modify (set_clients_audios (insert client_id []))) ;;
  modify (set_clients_audios (alter (fun l => l ++ [data]) client_id)) ;;
  logging (Debug_received (length data) client_id).

Section Service.
Context `{Platform}.

(** [np.frombuffer] stands before the [try]: its [ValueError] would leave
    the method. The [try] holds the scaling and the work on the file. *)
Definition save_wav (bio : bytes) (filename : string) : M frame unit :=
  let data := bio in
  match frombuffer_float32 (whole_samples data) with
  | None => raise ValueError
  | Some data_np =>
      try_except_Exception
        (let int_frames := map scale_sample data_np in
         open_wb filename
           (WavFile {| nchannels := 1; sampwidth := 4; framerate := 16000;
                       frames := tobytes int_frames |}))
        (fun e => logging (Error_saving e))
  end.

Definition save_audio (client_id : string) : M frame unit :=
  audio_data <- clients_audios_pop client_id ;;
  match audio_data with
  | None | Some [] => ret tt
  | Some chunks =>
      let webm := b_join chunks in
      let wav := webm in
      let webm_filename := client_id +:+ ".webm" in
      let wav_filename := client_id +:+ ".wav" in
      open_wb webm_filename (RawFile webm) ;;
      save_wav wav wav_filename ;;
      logging (Debug_saved client_id webm_filename)
  end.

Definition no_voice_activity (client_id : string) (_ : Z) : M frame unit :=
  c <- gets (fun s => clients_audios (self s) !! client_id) ;;
  match c with
  | Some (_ :: _) => save_audio client_id
  | Some [] | None => ret tt
  end.

End Service.

(** [AudioSegment.from_file(webm, format="webm")] followed by
    [audio.export(wav_io, format="wav")]: the work of pydub and of the codec
    behind it, which are no part of the sources. It gives the bytes of the
    exported file, or raises on a stream that does not decode. *)
Class Pydub := { webm_to_wav : bytes -> result bytes }.

(** No method and no handler calls this one. *)
Definition convert_webm_to_wav `{Pydub} (webm : bytes) : M frame bytes :=
  fun s => (webm_to_wav webm, set_env (emit (Decoded "webm" webm)) s).

Definition pop_clients_audios (client_id : string) : M frame unit :=
  present <- gets (fun s => bool_decide (is_Some (clients_audios (self s) !! client_id))) ;;
  if present then clients_audios_pop client_id ;; ret tt else ret tt.

(** *** The websocket handler *)

Record world := {
  instance : VoiceReceiverService;
  connected_clients : gmap string WebSocket;
  host : os
}.

(** Modelled from the spec: the metaclass [Singleton] (module [singleton] is
    not among the sources). Every call [VoiceReceiverService()] yields the one
    service object of the process, which [instance] holds; it is constructed
    by [init]. *)
Definition on_singleton {A} (m : M frame A) : M world A :=
  fun w =>
    let '(r, s) := m {| self := instance w; env := host w |} in
    (r, {| instance := self s;
           connected_clients := connected_clients w;
           host := env s |}).

Definition set_connected_clients (f : gmap string WebSocket -> gmap string WebSocket)
  (w : world) : world :=
  {| instance := instance w;
     connected_clients := f (connected_clients w);
     host := host w |}.

Definition set_host (f : os -> os) (w : world) : world :=
  {| instance := instance w;
     connected_clients := connected_clients w;
     host := f (host w) |}.

Section Handler.
Context `{Platform}.

Fixpoint receive_loop (client_id : string) (rs : list received) : M world loop_state :=
  match rs with
  | [] => ret Receiving
  | TimeoutError :: rs' =>
      on_singleton (no_voice_activity client_id (-1)) ;;
      receive_loop client_id rs'
  | Raised e :: _ => raise e
  | Message message :: rs' =>
      match m_bytes message with
      | Some data =>
          on_singleton (process_audio_frame data client_id) ;;
          receive_loop client_id rs'
      | None =>
          match m_text message with
          | Some data =>
              if String.eqb data "close()" then
                on_singleton (no_voice_activity client_id (-1)) ;;
                ret Break
              else receive_loop client_id rs'
          | None => ret Break
          end
      end
  end.

(** The [except Exception as e] block. *)
Definition except_block (client_id : string) (e : exn) (w : world) : world :=
  set_host (emit (Log (Error_traceback e)))
    (set_host (emit (Log (Error_closed client_id e))) w).

(** The [finally] block. *)
Definition finally_block (client_id : string) (w : world) : world :=
  let '(_, w1) := on_singleton (pop_clients_audios client_id) w in
  set_host (emit (Unregistered client_id))
    (set_connected_clients (delete client_id) w1).

(** The lines before the [try]: the handshake is taken to succeed. *)
Definition accept_block (websocket : WebSocket) (client_id : string) (w : world) : world :=
  set_host (emit (Log (Debug_established client_id)))
    (set_connected_clients (insert client_id websocket) w).

(** What [try ... except Exception ... finally] makes of the loop. *)
Definition leave (client_id : string) (r : result loop_state * world) : outcome * world :=
  match r with
  | (Return Receiving, w1) => (Suspended, w1)
  | (Return Break, w1) => (Returned, finally_block client_id w1)
  | (Raise e, w1) =>
      if is_Exception e
      then (Returned, finally_block client_id (except_block client_id e w1))
      else (Propagated e, finally_block client_id w1)
  end.

Definition get_audio (websocket : WebSocket) (client_id : string)
  (rs : list received) (w : world) : outcome * world :=
  leave client_id (receive_loop client_id rs (accept_block websocket client_id w)).

End Handler.

End App.

(** ** [main.py] *)

Module Main.

Record VoiceReceiverService := {
  clients_audios : gmap string (list bytes)
}.

(** [__init__] *)
Definition init : VoiceReceiverService := {| clients_audios := ∅ |}.

Record frame := {
  self : VoiceReceiverService;
  env : os
}.

Definition set_clients_audios (f : gmap string (list bytes) -> gmap string (list bytes))
  (s : frame) : frame :=
  {| self := {| clients_audios := f (clients_audios (self s)) |}; env := env s |}.

Definition set_env (f : os -> os) (s : frame) : frame :=
  {| self := self s; env := f (env s) |}.

Definition logging (r : log_record) : M frame unit := modify (set_env (emit (Log r))).

Definition open_wb (filename : string) (f : file) : M frame unit :=
  fun s =>
    if decide (filename ∈ unwritable (env s))
    then (Raise (OSError filename), s)
    else (Return tt, set_env (store filename f) s).

(** [self.clients_audios.pop(client_id, None)] *)
Definition clients_audios_pop (client_id : string) : M frame (option (list bytes)) :=
  fun s => (Return (clients_audios (self s) !! client_id),
            set_clients_audios (delete client_id) s).

Definition process_audio_frame (data : bytes) (client_id : string) : M frame unit :=
  present <- gets (fun s => bool_decide (is_Some (clients_audios (self s) !! client_id))) ;;
  (if present then ret tt
   else modify (set_clients_audios (insert client_id []))) ;;
  modify (set_clients_audios (alter (fun l => l ++ [data]) client_id)) ;;
  logging (Debug_received_from client_id).

Definition save_audio (client_id : string) : M frame unit :=
  audio_data <- clients_audios_pop client_id ;;
  match audio_data with
  | None | Some [] => ret tt
  | Some chunks =>
      let filename := client_id +:+ ".webm" in
      open_wb filename (RawFile (b_join chunks)) ;;
      logging (Debug_saved client_id filename)
  end.

Definition no_voice_activity (client_id : string) (_ : Z) : M frame unit :=
  c <- gets (fun s => clients_audios (self s) !! client_id) ;;
  match c with
  | Some (_ :: _) => save_audio client_id
  | Some [] | None => ret tt
  end.

Definition pop_clients_audios (client_id : string) : M frame unit :=
  present <- gets (fun s => bool_decide (is_Some (clients_audios (self s) !! client_id))) ;;
  if present then clients_audios_pop client_id ;; ret tt else ret tt.

(** *** The websocket handler *)

(** No service object outlives a call: the process keeps the connection table
    and the operating system only. *)
Record world := {
  connected_clients : gmap string WebSocket;
  host : os
}.

(** The class has no metaclass here: [VoiceReceiverService()] constructs a
    new object by [init], the method runs on it, and nothing keeps it. *)
Definition on_new_instance {A} (m : M frame A) : M world A :=
  fun w =>
    let '(r, s) := m {| self := init; env := host w |} in
    (r, {| connected_clients := connected_clients w; host := env s |}).

Definition set_connected_clients (f : gmap string WebSocket -> gmap string WebSocket)
  (w : world) : world :=
  {| connected_clients := f (connected_clients w); host := host w |}.

Definition set_host (f : os -> os) (w : world) : world :=
  {| connected_clients := connected_clients w; host := f (host w) |}.

Fixpoint receive_loop (client_id : string) (rs : list received) : M world loop_state :=
  match rs with
  | [] => ret Receiving
  | TimeoutError :: rs' =>
      on_new_instance (no_voice_activity client_id (-1)) ;;
      receive_loop client_id rs'
  | Raised e :: _ => raise e
  | Message message :: rs' =>
      match m_bytes message with
      | Some data =>
          on_new_instance (process_audio_frame data client_id) ;;
          receive_loop client_id rs'
      | None =>
          match m_text message with
          | Some data =>
              if String.eqb data "close()" then
                on_new_instance (no_voice_activity client_id (-1)) ;;
                ret Break
              else receive_loop client_id rs'
          | None => ret Break
          end
      end
  end.

Definition except_block (client_id : string) (e : exn) (w : world) : world :=
  set_host (emit (Log (Error_traceback e)))
    (set_host (emit (Log (Error_closed client_id e))) w).

Definition finally_block (client_id : string) (w : world) : world :=
  let '(_, w1) := on_new_instance (pop_clients_audios client_id) w in
  set_host (emit (Unregistered client_id))
    (set_connected_clients (delete client_id) w1).

(** The lines before the [try]: the handshake is taken to succeed. *)
Definition accept_block (websocket : WebSocket) (client_id : string) (w : world) : world :=
  set_host (emit (Log (Debug_established client_id)))
    (set_connected_clients (insert client_id websocket) w).

(** What [try ... except Exception ... finally] makes of the loop. *)
Definition leave (client_id : string) (r : result loop_state * world) : outcome * world :=
  match r with
  | (Return Receiving, w1) => (Suspended, w1)
  | (Return Break, w1) => (Returned, finally_block client_id w1)
  | (Raise e, w1) =>
      if is_Exception e
      then (Returned, finally_block client_id (except_block client_id e w1))
      else (Propagated e, finally_block client_id w1)
  end.

Definition get_audio (websocket : WebSocket) (client_id : string)
  (rs : list received) (w : world) : outcome * world :=
  leave client_id (receive_loop client_id rs (accept_block websocket client_id w)).

End Main.

(** ** Notions used to state the properties *)

(** [process_audio_frame] called once per chunk, in order. *)
Fixpoint append_all (chunks : list bytes) (client_id : string) : M App.frame unit :=
  match chunks with
  | [] => ret tt
  | data :: rest =>
      App.process_audio_frame data client_id ;; append_all rest client_id
  end.

(** What is pending for a client: the empty sequence when it has no entry. *)
Definition pending (client_id : string) (s : App.frame) : list bytes :=
  default [] (App.clients_audios (App.self s) !! client_id).

(** The state [save_audio] leaves when it has something to write and the raw
    file can be opened. *)
Definition saved `{Platform} (client_id : string) (chunks : list bytes)
  (s : App.frame) : App.frame :=
  let webm := b_join chunks in
  let webm_filename := client_id +:+ ".webm" in
  let wav_filename := client_id +:+ ".wav" in
  let s1 := App.set_clients_audios (delete client_id) s in
  let s2 := App.set_env (store webm_filename (RawFile webm)) s1 in
  let s3 := if decide (wav_filename ∈ unwritable (App.env s))
            then App.set_env (emit (Log (Error_saving (OSError wav_filename)))) s2
            else App.set_env (store wav_filename (WavFile (wav_of webm))) s2 in
  App.set_env (emit (Log (Debug_saved client_id webm_filename))) s3.

(** How many times the [finally] block of a handler for [client_id] has run. *)
Definition is_Unregistered (client_id : string) (e : event) : bool :=
  match e with
  | Unregistered c => String.eqb c client_id
  | _ => false
  end.

Definition cleanups (client_id : string) (t : list event) : nat :=
  length (List.filter (is_Unregistered client_id) t).

(** What no method changes: the unwritable paths and the number of cleanups
    recorded. *)
Definition quiet (o o1 : os) : Prop :=
  unwritable o1 = unwritable o ∧
  ∀ c, cleanups c (trace o1) = cleanups c (trace o).

(** What the receive loop leaves as it is: the connection table as well. *)
Definition steady (w w1 : App.world) : Prop :=
  App.connected_clients w1 = App.connected_clients w ∧
  quiet (App.host w) (App.host w1).

(** The completions that leave the loop whatever the state: the close token,
    a message with neither key, an exception out of [receive]. *)
Definition leaves_loop (r : received) : bool :=
  match r with
  | TimeoutError => false
  | Raised _ => true
  | Message m =>
      match m_bytes m, m_text m with
      | Some _, _ => false
      | None, Some data => String.eqb data "close()"
      | None, None => true
      end
  end.

Definition binary (data : bytes) : received :=
  Message {| m_bytes := Some data; m_text := None |}.

Definition text (data : string) : received :=
  Message {| m_bytes := None; m_text := Some data |}.

Definition disconnect : received :=
  Message {| m_bytes := None; m_text := None |}.

(** The file writes recorded in a trace, oldest first. *)
Definition writes (t : list event) : list (string * file) :=
  flat_map (fun e => match e with
                     | Written filename f => [(filename, f)]
                     | _ => []
                     end) t.

(** What the handler of [main.py] leaves as it is. *)
Definition main_steady (w w1 : Main.world) : Prop :=
  files (Main.host w1) = files (Main.host w) ∧
  writes (trace (Main.host w1)) = writes (trace (Main.host w)).

(** The process right after start: no file, no pending chunk, no connection. *)
Definition os0 : os := {| files := ∅; unwritable := ∅; trace := [] |}.

Definition frame0 : App.frame := {| App.self := App.init; App.env := os0 |}.

(** Client "abc" has one chunk pending and "abc.wav" cannot be opened. *)
Definition frame_wav_locked : App.frame :=
  {| App.self := {| App.clients_audios := {[ "abc" := [[x00; x01]] ]} |};
     App.env := {| files := ∅; unwritable := {[ "abc.wav" ]}; trace := [] |} |}.

(** Client "abc" has one chunk pending: the four bytes of the binary32 value
    1.0, which are no WebM stream. *)
Definition frame_one_sample : App.frame :=
  {| App.self := {| App.clients_audios := {[ "abc" := [[x00; x00; x80; x3f]] ]} |};
     App.env := os0 |}.

Definition is_Decoded (e : event) : bool :=
  match e with
  | Decoded _ _ => true
  | _ => false
  end.

Definition boot : App.world :=
  {| App.instance := App.init; App.connected_clients := ∅; App.host := os0 |}.

(** As [boot], but "abc.webm" cannot be opened. *)
Definition boot_raw_locked : App.world :=
  {| App.instance := App.init; App.connected_clients := ∅;
     App.host := {| files := ∅; unwritable := {[ "abc.webm" ]}; trace := [] |} |}.

Definition boot_main : Main.world :=
  {| Main.connected_clients := ∅; Main.host := os0 |}.

(** ** The lookup endpoint of [app.py] *)

Module AppRest.

(** [ClientAudioSchema], the response model of the endpoint. *)
Record ClientAudioSchema := {
  texts : list string;
  note : option string
}.

(** What the endpoint function returns: the value stored under the key, which
    is a connection object, or the default [dict(texts=[], note=None)]. *)
Inductive returned :=
| Stored (websocket : WebSocket)
| Default (d : ClientAudioSchema).

(** [GET /api/{client_id}]:
    [connected_clients.get(client_id, dict(texts=[], note=None))]. The second
    function named [get_audio] of the file. *)
Definition get_audio_api (client_id : string) : M App.world returned :=
  gets (fun w =>
          match App.connected_clients w !! client_id with
          | Some websocket => Stored websocket
          | None => Default {| texts := []; note := None |}
          end).

End AppRest.

(** ** Notions used to state further properties *)

(** Calls of [process_audio_frame] for any clients, in order of arrival. *)
Fixpoint process_all (calls : list (string * bytes)) : M App.frame unit :=
  match calls with
  | [] => ret tt
  | (client_id, data) :: rest =>
      App.process_audio_frame data client_id ;; process_all rest
  end.

(** The chunks that a list of calls holds for one client, in order. *)
Definition chunks_of (client_id : string) (calls : list (string * bytes)) : list bytes :=
  map snd (List.filter (fun c => String.eqb c.1 client_id) calls).

(** A handler suspended in [receive] goes on with further completions. *)
Definition resume `{Platform} (client_id : string) (rs : list received)
  (w : App.world) : outcome * App.world :=
  App.leave client_id (App.receive_loop client_id rs w).

(** [process_audio_frame] of [main.py] called once per chunk on one object. *)
Fixpoint main_append_all (chunks : list bytes) (client_id : string) : M Main.frame unit :=
  match chunks with
  | [] => ret tt
  | data :: rest =>
      Main.process_audio_frame data client_id ;; main_append_all rest client_id
  end.

(** A finite value of magnitude at most 1, or a zero. *)
Definition unit_range (x : spec_float) : Prop :=
  match x with
  | S754_zero _ => True
  | S754_finite _ m e => e ≤ 0 ∧ Zpos m ≤ 2 ^ (- e)
  | S754_infinity _ | S754_nan => False
  end.

(** Client "abc" has one chunk pending and "abc.webm" cannot be opened. *)
Definition frame_raw_locked : App.frame :=
  {| App.self := {| App.clients_audios := {[ "abc" := [[x00; x01]] ]} |};
     App.env := {| files := ∅; unwritable := {[ "abc.webm" ]}; trace := [] |} |}.

(** One round of a session: the chunks arrive, then a finalize. *)
Definition round `{Platform} (chunks : list bytes) (client_id : string) (z : Z)
  : M App.frame unit :=
  append_all chunks client_id ;; App.no_voice_activity client_id z.

(** What a handler for [client_id] leaves as it is: the other clients'
    registrations and pending chunks, and the files of other names. *)
Definition apart (client_id : string) (w w1 : App.world) : Prop :=
  (∀ j, j ≠ client_id →
        App.connected_clients w1 !! j = App.connected_clients w !! j) ∧
  (∀ j, j ≠ client_id →
        App.clients_audios (App.instance w1) !! j =
        App.clients_audios (App.instance w) !! j) ∧
  (∀ filename, filename ≠ client_id +:+ ".webm" → filename ≠ client_id +:+ ".wav" →
               files (App.host w1) !! filename = files (App.host w) !! filename).

(** The completions on which the loop calls [no_voice_activity]. *)
Definition finalizes (r : received) : bool :=
  match r with
  | TimeoutError => true
  | Raised _ => false
  | Message m =>
      match m_bytes m, m_text m with
      | Some _, _ => false
      | None, Some data => String.eqb data "close()"
      | None, None => false
      end
  end.

(** * Properties *)

(** ** The accumulator of [app.py] *)

Lemma frame_eta (s : App.frame) :
  {| App.self := {| App.clients_audios := App.clients_audios (App.self s) |};
     App.env := App.env s |} = s.
Proof. by destruct s as [[?] ?]. Qed.

Lemma process_audio_frame_eq data client_id s :
  App.process_audio_frame data client_id s =
  (Return tt,
   App.set_env (emit (Log (Debug_received (length data) client_id)))
     (App.set_clients_audios
        (fun m => <[client_id := default [] (m !! client_id) ++ [data]]> m) s)).
Proof.
  unfold App.process_audio_frame, bind, gets, modify, ret, App.logging.
  destruct s as [[m] o]; simpl.
  destruct (m !! client_id) as [l|] eqn:E; simpl.
  - unfold modify. do 2 f_equal. unfold App.set_clients_audios; simpl. do 2 f_equal.
    apply map_eq; intros j. destruct (decide (client_id = j)) as [->|Hne].
    + by rewrite lookup_alter_eq, lookup_insert_eq, E.
    + by rewrite lookup_alter_ne, lookup_insert_ne.
  - unfold modify. do 2 f_equal. unfold App.set_clients_audios; simpl. do 2 f_equal.
    apply map_eq; intros j. destruct (decide (client_id = j)) as [->|Hne].
    + by rewrite lookup_alter_eq, !lookup_insert_eq, E.
    + by rewrite lookup_alter_ne, !lookup_insert_ne.
Qed.

Lemma append_all_spec chunks client_id s :
  let r := append_all chunks client_id s in
  r.1 = Return tt ∧
  App.clients_audios (App.self r.2) !! client_id =
    match chunks with
    | [] => App.clients_audios (App.self s) !! client_id
    | _ :: _ => Some (pending client_id s ++ chunks)
    end ∧
  (∀ j, j ≠ client_id →
        App.clients_audios (App.self r.2) !! j = App.clients_audios (App.self s) !! j) ∧
  files (App.env r.2) = files (App.env s) ∧
  unwritable (App.env r.2) = unwritable (App.env s) ∧
  trace (App.env r.2) =
    trace (App.env s) ++ map (fun c => Log (Debug_received (length c) client_id)) chunks.
Proof.
  revert s. induction chunks as [|c cs IH]; intros s; simpl.
  - repeat split; auto. by rewrite app_nil_r.
  - unfold bind. rewrite process_audio_frame_eq.
    set (s1 := App.set_env _ _).
    destruct (IH s1) as (Hr & Hl & Ho & Hf & Hu & Ht).
    destruct (append_all cs client_id s1) as [r s2]; simpl in *. subst r.
    assert (Hp : pending client_id s1 = pending client_id s ++ [c]).
    { unfold pending, s1; simpl. by rewrite lookup_insert_eq. }
    repeat split.
    + rewrite Hl. destruct cs as [|c' cs'].
      * unfold s1; simpl. by rewrite lookup_insert_eq.
      * rewrite Hp. by rewrite <- app_assoc.
    + intros j Hj. rewrite Ho by done. unfold s1; simpl.
      by rewrite lookup_insert_ne.
    + by rewrite Hf.
    + by rewrite Hu.
    + rewrite Ht. unfold s1; simpl. by rewrite <- app_assoc.
Qed.

Lemma append_cancel_l (p a b : string) : p +:+ a = p +:+ b → a = b.
Proof.
  induction p as [|c p IH]; simpl; intros Heq; [done|].
  apply IH. by injection Heq.
Qed.

Lemma webm_wav_distinct (client_id : string) :
  client_id +:+ ".wav" ≠ client_id +:+ ".webm".
Proof. intros Heq. by apply append_cancel_l in Heq. Qed.

(** *** [save_wav] *)

Lemma frombuffer_float32_multiple (n : nat) (buf : bytes) :
  length buf = (4 * n)%nat →
  ∃ ws, frombuffer_float32 buf = Some ws ∧ length ws = n.
Proof.
  revert buf. induction n as [|n IH]; intros buf Hlen.
  - destruct buf; [|simpl in Hlen; lia]. by exists [].
  - destruct buf as [|b0 [|b1 [|b2 [|b3 rest]]]]; simpl in Hlen; try lia.
    destruct (IH rest) as (ws & Hws & Hl); [lia|].
    exists (word_of_le b0 b1 b2 b3 :: ws). simpl. rewrite Hws. split; [done|].
    simpl. by rewrite Hl.
Qed.

Lemma whole_samples_length data :
  length (whole_samples data) = (4 * (length data / 4))%nat.
Proof.
  unfold whole_samples. rewrite length_take.
  pose proof (Nat.Div0.mul_div_le (length data) 4). lia.
Qed.

Lemma frombuffer_whole_samples data :
  ∃ ws, frombuffer_float32 (whole_samples data) = Some ws ∧
        length ws = (length data / 4)%nat.
Proof. apply frombuffer_float32_multiple, whole_samples_length. Qed.

Section ServiceProperties.
Context `{Platform}.

Lemma save_wav_eq bio filename s :
  App.save_wav bio filename s =
  (Return tt,
   if decide (filename ∈ unwritable (App.env s))
   then App.set_env (emit (Log (Error_saving (OSError filename)))) s
   else App.set_env (store filename (WavFile (wav_of bio))) s).
Proof.
  unfold App.save_wav, wav_of, float32_samples.
  destruct (frombuffer_whole_samples bio) as (ws & -> & _); simpl.
  unfold try_except_Exception, App.open_wb.
  destruct (decide (filename ∈ unwritable (App.env s))); done.
Qed.

(** *** [save_audio] and [no_voice_activity] *)

Lemma save_audio_nothing client_id s :
  App.clients_audios (App.self s) !! client_id = None ∨
  App.clients_audios (App.self s) !! client_id = Some [] →
  App.save_audio client_id s =
  (Return tt, App.set_clients_audios (delete client_id) s).
Proof.
  intros Hl. unfold App.save_audio, bind, App.clients_audios_pop.
  by destruct Hl as [-> | ->].
Qed.

Lemma save_audio_chunks client_id s chunks :
  App.clients_audios (App.self s) !! client_id = Some chunks →
  chunks ≠ [] →
  App.save_audio client_id s =
  if decide (client_id +:+ ".webm" ∈ unwritable (App.env s))
  then (Raise (OSError (client_id +:+ ".webm")),
        App.set_clients_audios (delete client_id) s)
  else (Return tt, saved client_id chunks s).
Proof.
  intros Hl Hne. unfold App.save_audio, bind, App.clients_audios_pop.
  rewrite Hl. destruct chunks as [|c cs]; [done|].
  unfold App.open_wb. simpl App.env.
  destruct (decide (client_id +:+ ".webm" ∈ unwritable (App.env s))); [done|].
  rewrite save_wav_eq. unfold saved, App.logging, modify. simpl App.env.
  change (unwritable (store _ _ (App.env s))) with (unwritable (App.env s)).
  by destruct (decide (client_id +:+ ".wav" ∈ unwritable (App.env s))).
Qed.

Lemma no_voice_activity_nothing client_id z s :
  App.clients_audios (App.self s) !! client_id = None ∨
  App.clients_audios (App.self s) !! client_id = Some [] →
  App.no_voice_activity client_id z s = (Return tt, s).
Proof.
  intros Hl. unfold App.no_voice_activity, bind, gets.
  by destruct Hl as [-> | ->].
Qed.

Lemma no_voice_activity_chunks client_id z s chunks :
  App.clients_audios (App.self s) !! client_id = Some chunks →
  chunks ≠ [] →
  App.no_voice_activity client_id z s = App.save_audio client_id s.
Proof.
  intros Hl Hne. unfold App.no_voice_activity, bind, gets.
  rewrite Hl. by destruct chunks.
Qed.

Lemma set_clients_audios_delete_absent client_id s :
  App.clients_audios (App.self s) !! client_id = None →
  App.set_clients_audios (delete client_id) s = s.
Proof.
  intros Hl. unfold App.set_clients_audios.
  rewrite delete_id by done. apply frame_eta.
Qed.

(** C1. From a session with nothing pending, appending N chunks with
    [process_audio_frame] and draining with [save_audio] pops exactly these
    chunks in arrival order; when there is at least one and the raw file can
    be opened, the bytes written to it are their concatenation in order; a
    second drain right after pops nothing and changes nothing. *)
Theorem C1_drain_in_arrival_order client_id chunks s :
  App.clients_audios (App.self s) !! client_id = None →
  client_id +:+ ".webm" ∉ unwritable (App.env s) →
  let s1 := (append_all chunks client_id s).2 in
  let s2 := (App.save_audio client_id s1).2 in
  (append_all chunks client_id s).1 = Return tt ∧
  (App.clients_audios_pop client_id s1).1 =
    Return (match chunks with [] => None | _ :: _ => Some chunks end) ∧
  pending client_id s1 = chunks ∧
  (App.save_audio client_id s1).1 = Return tt ∧
  (chunks ≠ [] →
   files (App.env s2) !! (client_id +:+ ".webm") = Some (RawFile (b_join chunks)) ∧
   ∃ rest, trace (App.env s2) =
           trace (App.env s1) ++
           Written (client_id +:+ ".webm") (RawFile (b_join chunks)) :: rest) ∧
  (chunks = [] → App.env s2 = App.env s1) ∧
  App.clients_audios_pop client_id s2 = (Return None, s2) ∧
  App.save_audio client_id s2 = (Return tt, s2).
Proof.
  intros Hfresh Hw s1 s2.
  destruct (append_all_spec chunks client_id s) as (Hr & Hl & _ & _ & Hu & _).
  fold s1 in Hl, Hu.
  assert (Hp : pending client_id s = []) by (unfold pending; by rewrite Hfresh).
  rewrite Hp in Hl. simpl in Hl.
  assert (Hgone : ∀ s', App.clients_audios (App.self s') !! client_id = None →
                        App.clients_audios_pop client_id s' = (Return None, s') ∧
                        App.save_audio client_id s' = (Return tt, s')).
  { intros s' Hn. split.
    - unfold App.clients_audios_pop. rewrite Hn.
      by rewrite set_clients_audios_delete_absent.
    - rewrite save_audio_nothing by auto.
      by rewrite set_clients_audios_delete_absent. }
  split; [done|].
  destruct chunks as [|c cs].
  - rewrite Hfresh in Hl.
    assert (Hs2 : s2 = s1).
    { unfold s2. rewrite save_audio_nothing by auto. simpl.
      by apply set_clients_audios_delete_absent. }
    split_and!.
    + unfold App.clients_audios_pop. simpl. by rewrite Hl.
    + unfold pending. by rewrite Hl.
    + by rewrite save_audio_nothing by auto.
    + done.
    + by rewrite Hs2.
    + rewrite Hs2. by apply Hgone.
    + rewrite Hs2. by apply Hgone.
  - assert (Hsave : App.save_audio client_id s1 = (Return tt, saved client_id (c :: cs) s1)).
    { rewrite (save_audio_chunks _ _ (c :: cs)) by done.
      rewrite Hu. by rewrite decide_False by done. }
    assert (Hs2 : s2 = saved client_id (c :: cs) s1) by (unfold s2; by rewrite Hsave).
    assert (Hn2 : App.clients_audios (App.self s2) !! client_id = None).
    { rewrite Hs2. unfold saved. simpl.
      destruct (decide _); simpl; apply lookup_delete_eq. }
    split_and!.
    + unfold App.clients_audios_pop. simpl. by rewrite Hl.
    + unfold pending. by rewrite Hl.
    + by rewrite Hsave.
    + intros _. rewrite Hs2. unfold saved. split.
      * destruct (decide _); simpl.
        -- apply lookup_insert_eq.
        -- rewrite lookup_insert_ne; [apply lookup_insert_eq|].
           apply webm_wav_distinct.
      * destruct (decide _); simpl; rewrite <- !app_assoc; simpl; eauto.
    + done.
    + by apply Hgone.
    + by apply Hgone.
Qed.

(** C6. A finalize call for a client with no entry, or with an empty
    sequence, returns without any effect: no file is written, nothing is
    logged and the accumulator is as before. *)
Theorem C6_finalize_of_nothing_is_noop client_id z s :
  App.clients_audios (App.self s) !! client_id = None ∨
  App.clients_audios (App.self s) !! client_id = Some [] →
  App.no_voice_activity client_id z s = (Return tt, s) ∧
  let s' := (App.no_voice_activity client_id z s).2 in
  files (App.env s') = files (App.env s) ∧
  trace (App.env s') = trace (App.env s) ∧
  App.clients_audios (App.self s') = App.clients_audios (App.self s).
Proof.
  intros Hl. pose proof (no_voice_activity_nothing client_id z s Hl) as E.
  split; [exact E|]. by rewrite E.
Qed.

(** C7. [save_wav] never raises: the slice it decodes always holds whole
    samples and a failure to open the waveform file is caught and logged. So
    when [save_audio] has chunks to write and the raw file can be opened, it
    returns normally and the raw file holds the concatenation, whether or not
    the waveform file could be written; when it could not, the trace shows the
    raw write, then the logged error, and the waveform path is untouched. *)
Theorem C7_reencode_failure_is_contained client_id chunks s :
  App.clients_audios (App.self s) !! client_id = Some chunks →
  chunks ≠ [] →
  client_id +:+ ".webm" ∉ unwritable (App.env s) →
  (∀ bio filename s0, (App.save_wav bio filename s0).1 = Return tt) ∧
  (∀ bio filename s0,
     filename ∈ unwritable (App.env s0) →
     App.save_wav bio filename s0 =
     (Return tt, App.set_env (emit (Log (Error_saving (OSError filename)))) s0)) ∧
  (App.save_audio client_id s).1 = Return tt ∧
  (let s' := (App.save_audio client_id s).2 in
   files (App.env s') !! (client_id +:+ ".webm") = Some (RawFile (b_join chunks)) ∧
   (client_id +:+ ".wav" ∈ unwritable (App.env s) →
    trace (App.env s') =
      trace (App.env s) ++
      [Written (client_id +:+ ".webm") (RawFile (b_join chunks));
       Log (Error_saving (OSError (client_id +:+ ".wav")));
       Log (Debug_saved client_id (client_id +:+ ".webm"))] ∧
    files (App.env s') !! (client_id +:+ ".wav") =
      files (App.env s) !! (client_id +:+ ".wav"))).
Proof.
  intros Hl Hne Hw. split_and!.
  - intros. by rewrite save_wav_eq.
  - intros bio filename s0 Hu. rewrite save_wav_eq. by rewrite decide_True.
  - rewrite (save_audio_chunks _ _ chunks) by done. by rewrite decide_False.
  - rewrite (save_audio_chunks _ _ chunks) by done.
    rewrite decide_False by done. unfold saved. simpl. split.
    + destruct (decide _); simpl.
      * apply lookup_insert_eq.
      * rewrite lookup_insert_ne; [apply lookup_insert_eq|].
        apply webm_wav_distinct.
    + intros Hu. rewrite decide_True by done. simpl. split.
      * by rewrite <- !app_assoc.
      * rewrite lookup_insert_ne; [done|].
        intros Heq. by apply (webm_wav_distinct client_id).
Qed.

Lemma b_join_empty_chunks (chunks : list bytes) :
  Forall (fun c => c = []) chunks → b_join chunks = [].
Proof.
  unfold b_join. induction 1 as [|c cs -> _ IH]; [done|]. simpl. exact IH.
Qed.

(** C10. Zero-length chunks are appended like any other; a session holding
    only such chunks (at least one) counts as non-empty, so the finalize runs
    and, both files being writable, writes a raw file of zero bytes and a
    waveform file of zero samples. *)
Theorem C10_zero_length_chunks_are_finalized client_id chunks z s :
  App.clients_audios (App.self s) !! client_id = None →
  chunks ≠ [] →
  Forall (fun c => c = []) chunks →
  client_id +:+ ".webm" ∉ unwritable (App.env s) →
  client_id +:+ ".wav" ∉ unwritable (App.env s) →
  let s1 := (append_all chunks client_id s).2 in
  let s2 := (App.no_voice_activity client_id z s1).2 in
  (append_all chunks client_id s).1 = Return tt ∧
  App.clients_audios (App.self s1) !! client_id = Some chunks ∧
  (App.no_voice_activity client_id z s1).1 = Return tt ∧
  files (App.env s2) !! (client_id +:+ ".webm") = Some (RawFile []) ∧
  files (App.env s2) !! (client_id +:+ ".wav") =
    Some (WavFile {| nchannels := 1; sampwidth := 4; framerate := 16000;
                     frames := [] |}) ∧
  trace (App.env s2) =
    trace (App.env s1) ++
    [Written (client_id +:+ ".webm") (RawFile []);
     Written (client_id +:+ ".wav")
       (WavFile {| nchannels := 1; sampwidth := 4; framerate := 16000;
                   frames := [] |});
     Log (Debug_saved client_id (client_id +:+ ".webm"))].
Proof.
  intros Hfresh Hne Hz Hw1 Hw2 s1 s2.
  destruct (append_all_spec chunks client_id s) as (Hr & Hl & _ & _ & Hu & _).
  fold s1 in Hl, Hu.
  assert (Hl' : App.clients_audios (App.self s1) !! client_id = Some chunks).
  { rewrite Hl. unfold pending. rewrite Hfresh. by destruct chunks. }
  assert (E : App.no_voice_activity client_id z s1 =
              (Return tt, saved client_id chunks s1)).
  { rewrite (no_voice_activity_chunks _ _ _ chunks) by done.
    rewrite (save_audio_chunks _ _ chunks) by done.
    rewrite Hu. by rewrite decide_False. }
  unfold s2. rewrite E. simpl.
  unfold saved. rewrite Hu. rewrite decide_False by done.
  rewrite (b_join_empty_chunks chunks Hz). simpl.
  split_and!; try done.
  - rewrite lookup_insert_ne; [apply lookup_insert_eq|]. apply webm_wav_distinct.
  - apply lookup_insert_eq.
  - by rewrite <- !app_assoc.
Qed.

End ServiceProperties.

(** The scenario of client "abc" sending [b"\x00\x01"] and [b"\x02\x03"]. *)
Lemma C1_drain_in_arrival_order_witness :
  App.clients_audios (App.self frame0) !! "abc" = None ∧
  ("abc.webm" ∉ unwritable (App.env frame0)) ∧
  (let s1 := (append_all [[x00; x01]; [x02; x03]] "abc" frame0).2 in
   let s2 := (App.save_audio (H := x86_64) "abc" s1).2 in
   pending "abc" s1 = [[x00; x01]; [x02; x03]] ∧
   files (App.env s2) !! "abc.webm" = Some (RawFile [x00; x01; x02; x03]) ∧
   App.save_audio (H := x86_64) "abc" s2 = (Return tt, s2)).
Proof.
  assert (Hfresh : App.clients_audios (App.self frame0) !! "abc" = None)
    by reflexivity.
  assert (Hw : "abc.webm" ∉ unwritable (App.env frame0))
    by apply not_elem_of_empty.
  split; [exact Hfresh|]. split; [exact Hw|].
  destruct (C1_drain_in_arrival_order (H := x86_64) "abc"
              [[x00; x01]; [x02; x03]] frame0 Hfresh Hw)
    as (_ & _ & Hp & _ & Hfile & _ & _ & Hagain).
  split; [exact Hp|]. split; [|exact Hagain].
  apply Hfile. discriminate.
Defined.

Lemma C6_finalize_of_nothing_is_noop_witness :
  (App.clients_audios (App.self frame0) !! "abc" = None ∨
   App.clients_audios (App.self frame0) !! "abc" = Some []) ∧
  App.no_voice_activity (H := x86_64) "abc" (-1) frame0 = (Return tt, frame0).
Proof.
  assert (Hl : App.clients_audios (App.self frame0) !! "abc" = None ∨
               App.clients_audios (App.self frame0) !! "abc" = Some [])
    by (left; reflexivity).
  split; [exact Hl|].
  exact (proj1 (C6_finalize_of_nothing_is_noop (H := x86_64) "abc" (-1) frame0 Hl)).
Defined.

(** The raw file of "abc" is written although "abc.wav" cannot be opened. *)
Lemma C7_reencode_failure_is_contained_witness :
  App.clients_audios (App.self frame_wav_locked) !! "abc" = Some [[x00; x01]] ∧
  [[x00; x01]] ≠ [] ∧
  ("abc.webm" ∉ unwritable (App.env frame_wav_locked)) ∧
  (App.save_audio (H := x86_64) "abc" frame_wav_locked).1 = Return tt ∧
  files (App.env (App.save_audio (H := x86_64) "abc" frame_wav_locked).2) !! "abc.webm"
    = Some (RawFile [x00; x01]) ∧
  trace (App.env (App.save_audio (H := x86_64) "abc" frame_wav_locked).2) =
    [Written "abc.webm" (RawFile [x00; x01]);
     Log (Error_saving (OSError "abc.wav"));
     Log (Debug_saved "abc" "abc.webm")].
Proof.
  assert (Hl : App.clients_audios (App.self frame_wav_locked) !! "abc"
               = Some [[x00; x01]]) by reflexivity.
  assert (Hne : [[x00; x01]] ≠ []) by discriminate.
  assert (Hw : "abc.webm" ∉ unwritable (App.env frame_wav_locked)).
  { simpl. rewrite elem_of_singleton. discriminate. }
  assert (Hu : "abc.wav" ∈ unwritable (App.env frame_wav_locked)).
  { simpl. by rewrite elem_of_singleton. }
  split; [exact Hl|]. split; [exact Hne|]. split; [exact Hw|].
  destruct (C7_reencode_failure_is_contained (H := x86_64)
              "abc" _ frame_wav_locked Hl Hne Hw) as (_ & _ & Hr & Hf & Ht).
  split; [exact Hr|]. split; [exact Hf|]. exact (proj1 (Ht Hu)).
Defined.

(** Three empty chunks from "abc". *)
Lemma C10_zero_length_chunks_are_finalized_witness :
  App.clients_audios (App.self frame0) !! "abc" = None ∧
  [[]; []; []] ≠ ([] : list bytes) ∧
  Forall (fun c : bytes => c = []) [[]; []; []] ∧
  ("abc.webm" ∉ unwritable (App.env frame0)) ∧
  ("abc.wav" ∉ unwritable (App.env frame0)) ∧
  (let s1 := (append_all [[]; []; []] "abc" frame0).2 in
   let s2 := (App.no_voice_activity (H := x86_64) "abc" (-1) s1).2 in
   files (App.env s2) !! "abc.webm" = Some (RawFile []) ∧
   files (App.env s2) !! "abc.wav" =
     Some (WavFile {| nchannels := 1; sampwidth := 4; framerate := 16000;
                      frames := [] |})).
Proof.
  assert (Hfresh : App.clients_audios (App.self frame0) !! "abc" = None)
    by reflexivity.
  assert (Hne : [[]; []; []] ≠ ([] : list bytes)) by discriminate.
  assert (Hz : Forall (fun c : bytes => c = []) [[]; []; []])
    by (repeat constructor).
  assert (Hw1 : "abc.webm" ∉ unwritable (App.env frame0))
    by apply not_elem_of_empty.
  assert (Hw2 : "abc.wav" ∉ unwritable (App.env frame0))
    by apply not_elem_of_empty.
  split; [exact Hfresh|]. split; [exact Hne|]. split; [exact Hz|].
  split; [exact Hw1|]. split; [exact Hw2|].
  destruct (C10_zero_length_chunks_are_finalized (H := x86_64)
              "abc" _ (-1) frame0 Hfresh Hne Hz Hw1 Hw2)
    as (_ & _ & _ & Hraw & Hwav & _).
  split; [exact Hraw | exact Hwav].
Defined.

(** ** The handler of [app.py] *)

Lemma cleanups_app client_id t1 t2 :
  cleanups client_id (t1 ++ t2) = (cleanups client_id t1 + cleanups client_id t2)%nat.
Proof. unfold cleanups. by rewrite List.filter_app, length_app. Qed.

Lemma cleanups_Unregistered client_id :
  cleanups client_id [Unregistered client_id] = 1%nat.
Proof. unfold cleanups. simpl. by rewrite String.eqb_refl. Qed.

Section HandlerProperties.
Context `{Platform}.

(** The three ways a finalize call can go. *)
Lemma no_voice_activity_cases client_id z s :
  ((App.clients_audios (App.self s) !! client_id = None ∨
    App.clients_audios (App.self s) !! client_id = Some []) ∧
   App.no_voice_activity client_id z s = (Return tt, s)) ∨
  (∃ chunks,
     App.clients_audios (App.self s) !! client_id = Some chunks ∧ chunks ≠ [] ∧
     client_id +:+ ".webm" ∈ unwritable (App.env s) ∧
     App.no_voice_activity client_id z s =
     (Raise (OSError (client_id +:+ ".webm")),
      App.set_clients_audios (delete client_id) s)) ∨
  (∃ chunks,
     App.clients_audios (App.self s) !! client_id = Some chunks ∧ chunks ≠ [] ∧
     (client_id +:+ ".webm" ∉ unwritable (App.env s)) ∧
     App.no_voice_activity client_id z s = (Return tt, saved client_id chunks s)).
Proof.
  destruct (App.clients_audios (App.self s) !! client_id) as [[|c cs]|] eqn:E.
  - left. split; [auto|]. apply no_voice_activity_nothing. auto.
  - right. assert (Hne : c :: cs ≠ []) by done.
    rewrite (no_voice_activity_chunks _ _ _ _ E Hne).
    rewrite (save_audio_chunks _ _ _ E Hne).
    destruct (decide _) as [Hu|Hu]; [left | right]; exists (c :: cs); auto.
  - left. split; [auto|]. apply no_voice_activity_nothing. auto.
Qed.

Lemma quiet_refl o : quiet o o.
Proof. by split. Qed.

Lemma quiet_trans o o1 o2 : quiet o o1 → quiet o1 o2 → quiet o o2.
Proof.
  intros [Hu1 Hc1] [Hu2 Hc2]. split; [congruence|].
  intros c. by rewrite Hc2, Hc1.
Qed.

Lemma quiet_emit_Log r o : quiet o (emit (Log r) o).
Proof.
  split; [done|]. intros c. simpl. rewrite cleanups_app. simpl.
  unfold cleanups at 2. simpl. lia.
Qed.

Lemma quiet_store filename f o : quiet o (store filename f o).
Proof.
  split; [done|]. intros c. simpl. rewrite cleanups_app. simpl.
  unfold cleanups at 2. simpl. lia.
Qed.

Lemma saved_quiet client_id chunks s : quiet (App.env s) (App.env (saved client_id chunks s)).
Proof.
  unfold saved. simpl.
  eapply quiet_trans; [|apply quiet_emit_Log].
  destruct (decide _); simpl.
  - eapply quiet_trans; [apply quiet_store|apply quiet_emit_Log].
  - eapply quiet_trans; apply quiet_store.
Qed.

Lemma no_voice_activity_quiet client_id z s :
  quiet (App.env s) (App.env (App.no_voice_activity client_id z s).2).
Proof.
  destruct (no_voice_activity_cases client_id z s)
    as [[_ ->] | [(chunks & _ & _ & _ & ->) | (chunks & _ & _ & _ & ->)]]; simpl.
  - apply quiet_refl.
  - apply quiet_refl.
  - apply saved_quiet.
Qed.

Lemma process_audio_frame_quiet data client_id s :
  quiet (App.env s) (App.env (App.process_audio_frame data client_id s).2).
Proof. rewrite process_audio_frame_eq. simpl. apply quiet_emit_Log. Qed.

Lemma process_audio_frame_returns data client_id s :
  (App.process_audio_frame data client_id s).1 = Return tt.
Proof. by rewrite process_audio_frame_eq. Qed.

(** A call through the singleton leaves the connection table alone. *)
Lemma on_singleton_connected_clients {A} (m : M App.frame A) w :
  App.connected_clients (App.on_singleton m w).2 = App.connected_clients w.
Proof. unfold App.on_singleton. by destruct (m _). Qed.

Lemma on_singleton_fst {A} (m : M App.frame A) w :
  (App.on_singleton m w).1 =
  (m {| App.self := App.instance w; App.env := App.host w |}).1.
Proof. unfold App.on_singleton. by destruct (m _). Qed.

Lemma on_singleton_host {A} (m : M App.frame A) w :
  App.host (App.on_singleton m w).2 =
  App.env (m {| App.self := App.instance w; App.env := App.host w |}).2.
Proof. unfold App.on_singleton. by destruct (m _). Qed.

Lemma on_singleton_instance {A} (m : M App.frame A) w :
  App.instance (App.on_singleton m w).2 =
  App.self (m {| App.self := App.instance w; App.env := App.host w |}).2.
Proof. unfold App.on_singleton. by destruct (m _). Qed.

Lemma receive_loop_app client_id pre post w :
  App.receive_loop client_id (pre ++ post) w =
  match App.receive_loop client_id pre w with
  | (Return Receiving, w1) => App.receive_loop client_id post w1
  | r => r
  end.
Proof.
  revert w. induction pre as [|r pre IH]; intros w; [done|].
  destruct r as [|[[data|] [t|]]|e]; simpl; unfold bind; simpl.
  - destruct (App.on_singleton _ w) as [[[]|e] w1]; [apply IH|done].
  - destruct (App.on_singleton _ w) as [[[]|e] w1]; [apply IH|done].
  - destruct (App.on_singleton _ w) as [[[]|e] w1]; [apply IH|done].
  - destruct (String.eqb t "close()"); [|apply IH].
    destruct (App.on_singleton _ w) as [[[]|e] w1]; done.
  - done.
  - done.
Qed.

Lemma steady_refl w : steady w w.
Proof. split; [done|apply quiet_refl]. Qed.

Lemma steady_trans w w1 w2 : steady w w1 → steady w1 w2 → steady w w2.
Proof.
  intros [Hc1 Hq1] [Hc2 Hq2]. split; [congruence|].
  eapply quiet_trans; eauto.
Qed.

Lemma on_singleton_no_voice_activity_steady client_id z w :
  steady w (App.on_singleton (App.no_voice_activity client_id z) w).2.
Proof.
  split; [apply on_singleton_connected_clients|].
  rewrite on_singleton_host.
  apply (no_voice_activity_quiet client_id z
           {| App.self := App.instance w; App.env := App.host w |}).
Qed.

Lemma on_singleton_process_audio_frame_steady data client_id w :
  steady w (App.on_singleton (App.process_audio_frame data client_id) w).2.
Proof.
  split; [apply on_singleton_connected_clients|].
  rewrite on_singleton_host.
  apply (process_audio_frame_quiet data client_id
           {| App.self := App.instance w; App.env := App.host w |}).
Qed.

Lemma bind_steady {A B} (m : M App.world A) (k : A → M App.world B) w :
  steady w (m w).2 →
  (∀ a w1, steady w1 (k a w1).2) →
  steady w (bind m k w).2.
Proof.
  intros Hm Hk. unfold bind. destruct (m w) as [[a|e] w1]; simpl in *.
  - eapply steady_trans; [exact Hm|apply Hk].
  - exact Hm.
Qed.

Lemma receive_loop_steady client_id rs w :
  steady w (App.receive_loop client_id rs w).2.
Proof.
  revert w. induction rs as [|r rs IH]; intros w; [apply steady_refl|].
  destruct r as [|[[data|] [t|]]|e]; simpl.
  - apply bind_steady; [apply on_singleton_no_voice_activity_steady|auto].
  - apply bind_steady; [apply on_singleton_process_audio_frame_steady|auto].
  - apply bind_steady; [apply on_singleton_process_audio_frame_steady|auto].
  - destruct (String.eqb t "close()"); [|apply IH].
    apply bind_steady; [apply on_singleton_no_voice_activity_steady|].
    intros; apply steady_refl.
  - apply steady_refl.
  - apply steady_refl.
Qed.

(** *** Leaving the loop *)

Lemma finally_block_spec client_id w :
  let w' := App.finally_block client_id w in
  App.connected_clients w' !! client_id = None ∧
  App.clients_audios (App.instance w') !! client_id = None ∧
  trace (App.host w') = trace (App.host w) ++ [Unregistered client_id] ∧
  files (App.host w') = files (App.host w).
Proof.
  unfold App.finally_block, App.on_singleton, App.pop_clients_audios, bind, gets.
  simpl.
  destruct (App.clients_audios (App.instance w) !! client_id) as [l|] eqn:E; simpl.
  - split_and!; try done; apply lookup_delete_eq.
  - split_and!; try done. apply lookup_delete_eq.
Qed.

Lemma except_block_spec client_id e w :
  let w' := App.except_block client_id e w in
  steady w w' ∧ files (App.host w') = files (App.host w) ∧
  App.instance w' = App.instance w.
Proof.
  split_and!; try done. split; [done|].
  eapply quiet_trans; apply quiet_emit_Log.
Qed.

Lemma accept_block_spec websocket client_id w :
  let w' := App.accept_block websocket client_id w in
  App.connected_clients w' !! client_id = Some websocket ∧
  quiet (App.host w) (App.host w') ∧
  files (App.host w') = files (App.host w) ∧
  App.instance w' = App.instance w.
Proof.
  split_and!; try done.
  - apply lookup_insert_eq.
  - apply quiet_emit_Log.
Qed.

Lemma leave_Suspended client_id r :
  (App.leave client_id r).1 = Suspended ↔ r.1 = Return Receiving.
Proof.
  destruct r as [[[]|e] w]; simpl; try done.
  destruct (is_Exception e); done.
Qed.

Lemma receive_loop_leaves client_id rs w :
  Exists (fun r => leaves_loop r = true) rs →
  (App.receive_loop client_id rs w).1 ≠ Return Receiving.
Proof.
  revert w. induction rs as [|r rs IH]; intros w Hex.
  - by apply Exists_nil in Hex.
  - apply Exists_cons in Hex.
    destruct r as [|[[data|] [t|]]|e]; simpl in *; unfold bind.
    + destruct Hex as [?|Hex]; [done|].
      destruct (App.on_singleton _ w) as [[[]|e] w1]; [by apply IH|done].
    + destruct Hex as [?|Hex]; [done|].
      destruct (App.on_singleton _ w) as [[[]|e] w1]; [by apply IH|done].
    + destruct Hex as [?|Hex]; [done|].
      destruct (App.on_singleton _ w) as [[[]|e] w1]; [by apply IH|done].
    + destruct (String.eqb t "close()").
      * destruct (App.on_singleton _ w) as [[[]|e] w1]; done.
      * destruct Hex as [?|Hex]; [done|]. by apply IH.
    + done.
    + done.
Qed.

(** While the handler is suspended in [receive], the client is registered and
    no cleanup has run. *)
Lemma get_audio_while_suspended websocket client_id rs w :
  let r := App.get_audio websocket client_id rs w in
  r.1 = Suspended →
  App.connected_clients r.2 !! client_id = Some websocket ∧
  cleanups client_id (trace (App.host r.2)) =
    cleanups client_id (trace (App.host w)).
Proof.
  intros r. unfold r, App.get_audio.
  destruct (accept_block_spec websocket client_id w) as (Hreg & [_ Hq0] & _ & _).
  set (w0 := App.accept_block websocket client_id w) in *.
  destruct (receive_loop_steady client_id rs w0) as [Hc [_ Hq]].
  intros Hs. apply leave_Suspended in Hs.
  destruct (App.receive_loop client_id rs w0) as [[[]|e] w1]; simpl in *; try done.
  split; [by rewrite Hc|]. by rewrite Hq, Hq0.
Qed.

(** The [finally] block after a loop that recorded no cleanup. *)
Lemma finally_block_after_loop client_id w w1 :
  quiet (App.host w) (App.host w1) →
  let w' := App.finally_block client_id w1 in
  App.connected_clients w' !! client_id = None ∧
  App.clients_audios (App.instance w') !! client_id = None ∧
  cleanups client_id (trace (App.host w')) =
    S (cleanups client_id (trace (App.host w))).
Proof.
  intros [_ Hq] w'.
  destruct (finally_block_spec client_id w1) as (H1 & H2 & Ht & _).
  split_and!; [exact H1|exact H2|].
  unfold w'. rewrite Ht, cleanups_app, cleanups_Unregistered, Hq. lia.
Qed.

(** C2. Whatever ends the handler (the close token, a message of another
    shape, an exception out of [receive] or out of a finalize), the [finally]
    block has run exactly once when it is over, and the identifier is then in
    neither [connected_clients] nor [clients_audios]. The completions that end
    it whatever the state are those of [leaves_loop]; while the handler is
    suspended in [receive], the block has not run and the client is
    registered. *)
Theorem C2_cleanup_runs_once websocket client_id rs w :
  let r := App.get_audio websocket client_id rs w in
  (r.1 ≠ Suspended →
   App.connected_clients r.2 !! client_id = None ∧
   App.clients_audios (App.instance r.2) !! client_id = None ∧
   cleanups client_id (trace (App.host r.2)) =
     S (cleanups client_id (trace (App.host w)))) ∧
  (Exists (fun c => leaves_loop c = true) rs → r.1 ≠ Suspended) ∧
  (r.1 = Suspended →
   App.connected_clients r.2 !! client_id = Some websocket ∧
   cleanups client_id (trace (App.host r.2)) =
     cleanups client_id (trace (App.host w))).
Proof.
  intros r. split_and!.
  - unfold r, App.get_audio.
    destruct (accept_block_spec websocket client_id w) as (_ & Hq0 & _ & _).
    set (w0 := App.accept_block websocket client_id w) in *.
    destruct (receive_loop_steady client_id rs w0) as [_ Hq].
    destruct (App.receive_loop client_id rs w0) as [[[]|e] w1]; simpl in *.
    + intros _. apply finally_block_after_loop.
      eapply quiet_trans; eauto.
    + done.
    + intros _.
      destruct (except_block_spec client_id e w1) as ([_ Hqe] & _).
      destruct (is_Exception e); simpl; apply finally_block_after_loop.
      * eapply quiet_trans; [exact Hq0|]. eapply quiet_trans; eauto.
      * eapply quiet_trans; eauto.
  - intros Hex Hs. unfold r, App.get_audio in Hs. apply leave_Suspended in Hs.
    by apply (receive_loop_leaves client_id rs
                (App.accept_block websocket client_id w) Hex).
  - apply get_audio_while_suspended.
Qed.

(** *** Messages of other shapes *)

Lemma world_eta (w : App.world) :
  {| App.instance := App.instance w;
     App.connected_clients := App.connected_clients w;
     App.host := App.host w |} = w.
Proof. by destruct w. Qed.

Lemma get_audio_Suspended websocket client_id rs w :
  (App.get_audio websocket client_id rs w).1 = Suspended →
  App.receive_loop client_id rs (App.accept_block websocket client_id w) =
  (Return Receiving, (App.get_audio websocket client_id rs w).2).
Proof.
  unfold App.get_audio.
  destruct (App.receive_loop _ _ _) as [[[]|e] w1]; simpl; try done.
  destruct (is_Exception e); done.
Qed.

Lemma get_audio_app websocket client_id pre post w :
  (App.get_audio websocket client_id pre w).1 = Suspended →
  App.get_audio websocket client_id (pre ++ post) w =
  App.leave client_id
    (App.receive_loop client_id post (App.get_audio websocket client_id pre w).2).
Proof.
  intros Hs. unfold App.get_audio at 1. rewrite receive_loop_app.
  by rewrite (get_audio_Suspended _ _ _ _ Hs).
Qed.

(** C4, as the code has it. While the handler is suspended in [receive], a
    message with neither the key ["bytes"] nor the key ["text"] ends it
    without a finalize: only the [finally] block runs, no file changes. A text
    other than the close token does not end it: the message is skipped and
    the loop goes on with the completions that follow. *)
Theorem C4_other_shapes websocket client_id pre post t w :
  (App.get_audio websocket client_id pre w).1 = Suspended →
  t ≠ "close()" →
  let w1 := (App.get_audio websocket client_id pre w).2 in
  App.get_audio websocket client_id (pre ++ disconnect :: post) w =
    (Returned, App.finally_block client_id w1) ∧
  files (App.host (App.finally_block client_id w1)) = files (App.host w1) ∧
  trace (App.host (App.finally_block client_id w1)) =
    trace (App.host w1) ++ [Unregistered client_id] ∧
  App.get_audio websocket client_id (pre ++ text t :: post) w =
    App.get_audio websocket client_id (pre ++ post) w ∧
  App.get_audio websocket client_id (pre ++ [text t]) w = (Suspended, w1).
Proof.
  intros Hs Ht w1.
  assert (Heqb : String.eqb t "close()" = false) by by apply String.eqb_neq.
  destruct (finally_block_spec client_id w1) as (_ & _ & Htr & Hf).
  split_and!.
  - by rewrite get_audio_app.
  - exact Hf.
  - exact Htr.
  - rewrite !get_audio_app by done. simpl. by rewrite Heqb.
  - rewrite get_audio_app by done. simpl. by rewrite Heqb.
Qed.

(** *** Timeouts *)

Lemma no_voice_activity_drains client_id z s :
  (App.no_voice_activity client_id z s).1 = Return tt →
  let s1 := (App.no_voice_activity client_id z s).2 in
  App.clients_audios (App.self s1) !! client_id = None ∨
  App.clients_audios (App.self s1) !! client_id = Some [].
Proof.
  destruct (no_voice_activity_cases client_id z s)
    as [[Hl ->] | [(chunks & _ & _ & _ & ->) | (chunks & _ & _ & _ & ->)]]; simpl.
  - done.
  - done.
  - intros _. left. unfold saved. destruct (decide _); simpl; apply lookup_delete_eq.
Qed.

Lemma no_voice_activity_writable client_id z s :
  client_id +:+ ".webm" ∉ unwritable (App.env s) →
  (App.no_voice_activity client_id z s).1 = Return tt.
Proof.
  intros Hw.
  destruct (no_voice_activity_cases client_id z s)
    as [[Hl ->] | [(chunks & _ & _ & Hu & ->) | (chunks & _ & _ & _ & ->)]]; done.
Qed.

Lemma on_singleton_no_voice_activity_nothing client_id z w :
  App.clients_audios (App.instance w) !! client_id = None ∨
  App.clients_audios (App.instance w) !! client_id = Some [] →
  App.on_singleton (App.no_voice_activity client_id z) w = (Return tt, w).
Proof.
  intros Hl. unfold App.on_singleton.
  rewrite no_voice_activity_nothing by exact Hl. simpl.
  by rewrite world_eta.
Qed.

Lemma timeouts_with_nothing_pending client_id n w :
  App.clients_audios (App.instance w) !! client_id = None ∨
  App.clients_audios (App.instance w) !! client_id = Some [] →
  App.receive_loop client_id (replicate n TimeoutError) w = (Return Receiving, w).
Proof.
  intros Hl. induction n as [|n IH]; [done|].
  simpl. unfold bind.
  by rewrite on_singleton_no_voice_activity_nothing.
Qed.

Lemma get_audio_unwritable websocket client_id rs w :
  unwritable (App.host (App.get_audio websocket client_id rs w).2) =
  unwritable (App.host w) ∨
  (App.get_audio websocket client_id rs w).1 ≠ Suspended.
Proof.
  destruct (accept_block_spec websocket client_id w) as (_ & [Hu0 _] & _ & _).
  destruct (receive_loop_steady client_id rs
              (App.accept_block websocket client_id w)) as [_ [Hu _]].
  unfold App.get_audio.
  destruct (App.receive_loop _ _ _) as [[[]|e] w1]; simpl in *.
  - by right.
  - left. congruence.
  - right. by destruct (is_Exception e).
Qed.

(** C8, as the code has it. Each expiry of the timeout calls
    [no_voice_activity] for the client. When the call of the first expiry
    returns normally, which it does whenever the raw file can be opened or
    nothing is pending, the handler stays suspended in [receive] with the
    client registered, however many expiries follow in a row, and the expiries
    after the first change nothing. When the call raises, the handler is
    over. *)
Theorem C8_timeouts_keep_the_session_open websocket client_id pre n w :
  (App.get_audio websocket client_id pre w).1 = Suspended →
  let w1 := (App.get_audio websocket client_id pre w).2 in
  let finalized := App.on_singleton (App.no_voice_activity client_id (-1)) w1 in
  let r := App.get_audio websocket client_id (pre ++ replicate (S n) TimeoutError) w in
  (client_id +:+ ".webm" ∉ unwritable (App.host w) → finalized.1 = Return tt) ∧
  (App.clients_audios (App.instance w1) !! client_id = None ∨
   App.clients_audios (App.instance w1) !! client_id = Some [] →
   finalized.1 = Return tt) ∧
  (finalized.1 = Return tt →
   r = (Suspended, finalized.2) ∧
   App.connected_clients r.2 !! client_id = Some websocket ∧
   cleanups client_id (trace (App.host r.2)) = cleanups client_id (trace (App.host w))) ∧
  (∀ e, finalized.1 = Raise e → r.1 ≠ Suspended).
Proof.
  intros Hs w1 finalized r. split_and!.
  - intros Hw. unfold finalized. rewrite on_singleton_fst.
    apply no_voice_activity_writable. simpl.
    destruct (get_audio_unwritable websocket client_id pre w) as [Hu|Hn]; [|done].
    fold w1 in Hu. by rewrite Hu.
  - intros Hl. unfold finalized.
    by rewrite on_singleton_no_voice_activity_nothing.
  - intros Hok.
    assert (Hr : r = (Suspended, finalized.2)).
    { unfold r. rewrite get_audio_app by done. fold w1. simpl. unfold bind.
      fold finalized.
      assert (Hd : App.clients_audios (App.instance finalized.2) !! client_id = None ∨
                   App.clients_audios (App.instance finalized.2) !! client_id = Some []).
      { unfold finalized in *. rewrite on_singleton_instance.
        rewrite on_singleton_fst in Hok.
        by apply no_voice_activity_drains. }
      destruct finalized as [[[]|e] w2]; simpl in *; [|done].
      by rewrite timeouts_with_nothing_pending. }
    split; [exact Hr|].
    apply get_audio_while_suspended. fold r. by rewrite Hr.
  - intros e He. unfold r. rewrite get_audio_app by done. fold w1.
    simpl. unfold bind. fold finalized.
    destruct finalized as [[[]|e'] w2]; simpl in *; [done|].
    by destruct (is_Exception e').
Qed.

(** *** The close token *)

Lemma on_singleton_bind {A B} (m : M App.frame A) (k : A → M App.frame B) w :
  App.on_singleton (bind m k) w =
  bind (App.on_singleton m) (fun a => App.on_singleton (k a)) w.
Proof.
  unfold App.on_singleton, bind.
  destruct (m _) as [[a|e] [sf o]]; simpl; done.
Qed.

Lemma receive_loop_binary client_id chunks w :
  App.receive_loop client_id (map binary chunks) w =
  (Return Receiving, (App.on_singleton (append_all chunks client_id) w).2).
Proof.
  revert w. induction chunks as [|c cs IH]; intros w.
  - simpl. unfold App.on_singleton, ret. simpl. by rewrite world_eta.
  - cbn [map binary App.receive_loop m_bytes append_all].
    rewrite on_singleton_bind. unfold bind.
    destruct (App.on_singleton (App.process_audio_frame c client_id) w)
      as [[[]|e] w1] eqn:E.
    + apply IH.
    + pose proof (on_singleton_fst (App.process_audio_frame c client_id) w) as Hf.
      rewrite E, process_audio_frame_returns in Hf. done.
Qed.

Lemma close_or_timeout websocket client_id pre post w :
  let rc := App.get_audio websocket client_id (pre ++ text "close()" :: post) w in
  let rt := App.get_audio websocket client_id (pre ++ [TimeoutError]) w in
  rc.1 ≠ Suspended ∧
  rc = App.get_audio websocket client_id (pre ++ [text "close()"]) w ∧
  files (App.host rc.2) = files (App.host rt.2) ∧
  ((App.get_audio websocket client_id pre w).1 = Suspended →
   let finalized := App.on_singleton (App.no_voice_activity client_id (-1))
                      (App.get_audio websocket client_id pre w).2 in
   files (App.host rc.2) = files (App.host finalized.2) ∧
   (finalized.1 = Return tt →
    rt = (Suspended, finalized.2) ∧
    rc = (Returned, App.finally_block client_id finalized.2))).
Proof.
  intros rc rt. unfold rc, rt, App.get_audio. rewrite !receive_loop_app.
  destruct (App.receive_loop client_id pre _) as [[[]|e] w1] eqn:E; simpl.
  - split_and!; done.
  - unfold bind.
    destruct (App.on_singleton _ w1) as [[[]|e] w2]; simpl.
    + destruct (finally_block_spec client_id w2) as (_ & _ & _ & Hf).
      split_and!; done.
    + destruct (finally_block_spec client_id (App.except_block client_id e w2))
        as (_ & _ & _ & Hf1).
      destruct (finally_block_spec client_id w2) as (_ & _ & _ & Hf2).
      destruct (is_Exception e); simpl; split_and!; done.
  - destruct (is_Exception e); simpl; split_and!; done.
Qed.

(** C9. The close token ends the handler at once, whatever follows it, after
    the same call [no_voice_activity] that a timeout at this point would have
    made: the files are those the timeout would have left. For a client with
    nothing pending that sent chunks (at least one) and then the token, both
    files being writable, these are the raw file with the concatenation and
    the waveform file made of it. *)
Theorem C9_close_token_finalizes_at_once websocket client_id pre post chunks w :
  let rc := App.get_audio websocket client_id (pre ++ text "close()" :: post) w in
  let rt := App.get_audio websocket client_id (pre ++ [TimeoutError]) w in
  rc.1 ≠ Suspended ∧
  rc = App.get_audio websocket client_id (pre ++ [text "close()"]) w ∧
  files (App.host rc.2) = files (App.host rt.2) ∧
  (pre = map binary chunks →
   chunks ≠ [] →
   App.clients_audios (App.instance w) !! client_id = None →
   client_id +:+ ".webm" ∉ unwritable (App.host w) →
   client_id +:+ ".wav" ∉ unwritable (App.host w) →
   rc.1 = Returned ∧ rt.1 = Suspended ∧
   files (App.host rc.2) !! (client_id +:+ ".webm") = Some (RawFile (b_join chunks)) ∧
   files (App.host rc.2) !! (client_id +:+ ".wav") =
     Some (WavFile (wav_of (b_join chunks)))).
Proof.
  intros rc rt.
  destruct (close_or_timeout websocket client_id pre post w) as (H1 & H2 & H3 & H4).
  fold rc rt in H1, H2, H3, H4.
  split_and!; [exact H1|exact H2|exact H3|].
  intros -> Hne Hfresh Hw1 Hw2.
  set (w0 := App.accept_block websocket client_id w).
  assert (Hpre : App.get_audio websocket client_id (map binary chunks) w =
                 (Suspended, (App.on_singleton (append_all chunks client_id) w0).2)).
  { unfold App.get_audio. fold w0. by rewrite receive_loop_binary. }
  assert (Hs : (App.get_audio websocket client_id (map binary chunks) w).1 = Suspended)
    by by rewrite Hpre.
  specialize (H4 Hs). simpl in H4. rewrite Hpre in H4. simpl in H4.
  set (w1 := (App.on_singleton (append_all chunks client_id) w0).2) in *.
  destruct (append_all_spec chunks client_id
              {| App.self := App.instance w0; App.env := App.host w0 |})
    as (_ & Hl & _ & _ & Hu & _).
  rewrite <- on_singleton_instance in Hl. rewrite <- on_singleton_host in Hu.
  fold w1 in Hl, Hu.
  assert (Hl1 : App.clients_audios (App.instance w1) !! client_id = Some chunks).
  { rewrite Hl. unfold pending. simpl. rewrite Hfresh. by destruct chunks. }
  assert (Hnva : App.no_voice_activity client_id (-1)
                   {| App.self := App.instance w1; App.env := App.host w1 |} =
                 (Return tt, saved client_id chunks
                    {| App.self := App.instance w1; App.env := App.host w1 |})).
  { rewrite (no_voice_activity_chunks _ _ _ chunks) by done.
    rewrite (save_audio_chunks _ _ chunks) by done.
    simpl. rewrite Hu. simpl. by rewrite decide_False. }
  destruct H4 as (Hfiles & Hok).
  assert (Hfin : (App.on_singleton (App.no_voice_activity client_id (-1)) w1).1 = Return tt).
  { by rewrite on_singleton_fst, Hnva. }
  destruct (Hok Hfin) as (Hrt & Hrc).
  split_and!.
  - by rewrite Hrc.
  - by rewrite Hrt.
  - rewrite Hfiles, on_singleton_host, Hnva. unfold saved. simpl.
    rewrite Hu. simpl. rewrite decide_False by done. simpl.
    rewrite lookup_insert_ne; [apply lookup_insert_eq|]. apply webm_wav_distinct.
  - rewrite Hfiles, on_singleton_host, Hnva. unfold saved. simpl.
    rewrite Hu. simpl. rewrite decide_False by done. simpl.
    apply lookup_insert_eq.
Qed.

End HandlerProperties.

(** "abc" sends a chunk and falls silent; the raw file cannot be opened, so
    the finalize of the timeout raises and the handler ends. *)
Lemma C2_cleanup_runs_once_witness :
  let r := App.get_audio (H := x86_64) 1%nat "abc"
             [binary [x00; x01]; TimeoutError] boot_raw_locked in
  r.1 ≠ Suspended ∧
  App.connected_clients r.2 !! "abc" = None ∧
  App.clients_audios (App.instance r.2) !! "abc" = None ∧
  cleanups "abc" (trace (App.host r.2)) = 1%nat.
Proof.
  intros r.
  assert (Hne : r.1 ≠ Suspended) by (vm_compute; discriminate).
  split; [exact Hne|].
  exact (proj1 (C2_cleanup_runs_once (H := x86_64) 1%nat "abc"
                  [binary [x00; x01]; TimeoutError] boot_raw_locked) Hne).
Defined.

(** A text other than the close token: the handler of "abc" is still
    suspended in [receive], the client registered and no cleanup done. *)
Lemma C4_other_text_keeps_receiving :
  "hello" ≠ "close()" ∧
  (let r := App.get_audio (H := x86_64) 1%nat "abc" [text "hello"] boot in
   r.1 = Suspended ∧
   App.connected_clients r.2 !! "abc" = Some 1%nat ∧
   cleanups "abc" (trace (App.host r.2)) = 0%nat).
Proof. split; [discriminate|]. vm_compute. auto. Qed.

Lemma C4_other_shapes_witness :
  (App.get_audio (H := x86_64) 1%nat "abc" [binary [x00; x01]] boot).1 = Suspended ∧
  "hello" ≠ "close()" ∧
  (App.get_audio (H := x86_64) 1%nat "abc" [binary [x00; x01]; disconnect] boot).1
    = Returned ∧
  App.get_audio (H := x86_64) 1%nat "abc" [binary [x00; x01]; text "hello"] boot =
    (Suspended, (App.get_audio (H := x86_64) 1%nat "abc" [binary [x00; x01]] boot).2).
Proof.
  assert (Hs : (App.get_audio (H := x86_64) 1%nat "abc" [binary [x00; x01]] boot).1
               = Suspended) by (vm_compute; reflexivity).
  assert (Ht : "hello" ≠ "close()") by discriminate.
  split; [exact Hs|]. split; [exact Ht|].
  destruct (C4_other_shapes (H := x86_64) 1%nat "abc" [binary [x00; x01]] []
              "hello" boot Hs Ht) as (Hd & _ & _ & _ & Hskip).
  split; [|exact Hskip].
  simpl app in Hd. by rewrite Hd.
Defined.

(** The timeout branch ends the handler of "abc": the finalize cannot open
    the raw file, the [OSError] leaves the loop and the client is
    unregistered. Before the expiry the handler was suspended in [receive]. *)
Lemma C8_timeout_can_close :
  (App.get_audio (H := x86_64) 1%nat "abc" [binary [x00; x01]] boot_raw_locked).1
    = Suspended ∧
  (let r := App.get_audio (H := x86_64) 1%nat "abc"
              [binary [x00; x01]; TimeoutError] boot_raw_locked in
   r.1 = Returned ∧
   App.connected_clients r.2 !! "abc" = None ∧
   trace (App.host r.2) =
     [Log (Debug_established "abc"); Log (Debug_received 2 "abc");
      Log (Error_closed "abc" (OSError "abc.webm"));
      Log (Error_traceback (OSError "abc.webm")); Unregistered "abc"]).
Proof. vm_compute. auto. Qed.

Lemma C8_timeouts_keep_the_session_open_witness :
  (App.get_audio (H := x86_64) 1%nat "abc" [binary [x00; x01]] boot).1 = Suspended ∧
  (let r := App.get_audio (H := x86_64) 1%nat "abc"
              ([binary [x00; x01]] ++ replicate 3 TimeoutError) boot in
   r.1 = Suspended ∧
   App.connected_clients r.2 !! "abc" = Some 1%nat ∧
   cleanups "abc" (trace (App.host r.2)) = 0%nat).
Proof.
  assert (Hs : (App.get_audio (H := x86_64) 1%nat "abc" [binary [x00; x01]] boot).1
               = Suspended) by (vm_compute; reflexivity).
  split; [exact Hs|].
  destruct (C8_timeouts_keep_the_session_open (H := x86_64) 1%nat "abc"
              [binary [x00; x01]] 2 boot Hs) as (Hw & _ & Hopen & _).
  assert (Hfin : (App.on_singleton (App.no_voice_activity (H := x86_64) "abc" (-1))
                    (App.get_audio (H := x86_64) 1%nat "abc" [binary [x00; x01]] boot).2).1
                 = Return tt).
  { apply Hw. apply not_elem_of_empty. }
  destruct (Hopen Hfin) as (Hr & Hc & Hn).
  split; [|split; [exact Hc|exact Hn]].
  by rewrite Hr.
Defined.

(** "abc" sends two chunks and the close token; what follows is not read. *)
Lemma C9_close_token_finalizes_at_once_witness :
  let rc := App.get_audio (H := x86_64) 1%nat "abc"
              (map binary [[x00; x01]; [x02; x03]] ++ text "close()" :: [TimeoutError])
              boot in
  rc.1 = Returned ∧
  files (App.host rc.2) !! "abc.webm" = Some (RawFile [x00; x01; x02; x03]) ∧
  files (App.host rc.2) =
    files (App.host (App.get_audio (H := x86_64) 1%nat "abc"
                       (map binary [[x00; x01]; [x02; x03]] ++ [TimeoutError]) boot).2).
Proof.
  intros rc.
  destruct (C9_close_token_finalizes_at_once (H := x86_64) 1%nat "abc"
              (map binary [[x00; x01]; [x02; x03]]) [TimeoutError]
              [[x00; x01]; [x02; x03]] boot) as (_ & _ & Hsame & Hart).
  destruct Hart as (Hret & _ & Hraw & _).
  - reflexivity.
  - discriminate.
  - reflexivity.
  - apply not_elem_of_empty.
  - apply not_elem_of_empty.
  - split; [exact Hret|]. split; [exact Hraw|exact Hsame].
Defined.

(** ** The handler of [main.py] *)

Lemma writes_app t1 t2 : writes (t1 ++ t2) = writes t1 ++ writes t2.
Proof. unfold writes. by rewrite flat_map_app. Qed.

Lemma main_world_eta (w : Main.world) :
  {| Main.connected_clients := Main.connected_clients w; Main.host := Main.host w |} = w.
Proof. by destruct w. Qed.

(** On a new instance there is nothing to finalize. *)
Lemma main_no_voice_activity_new client_id z w :
  Main.on_new_instance (Main.no_voice_activity client_id z) w = (Return tt, w).
Proof.
  unfold Main.on_new_instance, Main.no_voice_activity, bind, gets. simpl.
  rewrite lookup_empty. simpl. by rewrite main_world_eta.
Qed.

(** The chunk goes to a new instance and is lost with it. *)
Lemma main_process_audio_frame_new data client_id w :
  Main.on_new_instance (Main.process_audio_frame data client_id) w =
  (Return tt, Main.set_host (emit (Log (Debug_received_from client_id))) w).
Proof.
  unfold Main.on_new_instance, Main.process_audio_frame, bind, gets, modify,
    Main.logging. simpl.
  rewrite lookup_empty. simpl. done.
Qed.

Lemma main_pop_clients_audios_new client_id w :
  Main.on_new_instance (Main.pop_clients_audios client_id) w = (Return tt, w).
Proof.
  unfold Main.on_new_instance, Main.pop_clients_audios, bind, gets. simpl.
  rewrite lookup_empty. simpl. by rewrite main_world_eta.
Qed.

Lemma main_steady_emit e w :
  writes [e] = [] → main_steady w (Main.set_host (emit e) w).
Proof.
  intros He. split; [done|]. simpl. rewrite writes_app, He. apply app_nil_r.
Qed.

Lemma main_steady_trans w w1 w2 :
  main_steady w w1 → main_steady w1 w2 → main_steady w w2.
Proof. intros [? ?] [? ?]. split; congruence. Qed.

Lemma main_receive_loop_steady client_id rs w :
  main_steady w (Main.receive_loop client_id rs w).2.
Proof.
  revert w. induction rs as [|r rs IH]; intros w; [by split|].
  destruct r as [|[[data|] [t|]]|e]; simpl; unfold bind.
  - rewrite main_no_voice_activity_new. apply IH.
  - rewrite main_process_audio_frame_new.
    eapply main_steady_trans; [|apply IH]. by apply main_steady_emit.
  - rewrite main_process_audio_frame_new.
    eapply main_steady_trans; [|apply IH]. by apply main_steady_emit.
  - destruct (String.eqb t "close()"); [|apply IH].
    rewrite main_no_voice_activity_new. by split.
  - by split.
  - by split.
Qed.

Lemma main_finally_block_steady client_id w :
  main_steady w (Main.finally_block client_id w).
Proof.
  unfold Main.finally_block. rewrite main_pop_clients_audios_new.
  split; [done|]. simpl. rewrite writes_app. apply app_nil_r.
Qed.

Lemma main_get_audio_steady websocket client_id rs w :
  main_steady w (Main.get_audio websocket client_id rs w).2.
Proof.
  unfold Main.get_audio.
  set (w0 := Main.accept_block websocket client_id w).
  assert (H0 : main_steady w w0).
  { split; [done|]. simpl. rewrite writes_app. apply app_nil_r. }
  pose proof (main_receive_loop_steady client_id rs w0) as Hl.
  destruct (Main.receive_loop client_id rs w0) as [[[]|e] w1]; simpl in *.
  - eapply main_steady_trans; [exact H0|].
    eapply main_steady_trans; [exact Hl|]. apply main_finally_block_steady.
  - eapply main_steady_trans; eauto.
  - destruct (is_Exception e); simpl.
    + eapply main_steady_trans; [exact H0|].
      eapply main_steady_trans; [exact Hl|].
      eapply main_steady_trans; [|apply main_finally_block_steady].
      split; [done|]. simpl. rewrite !writes_app. simpl. by rewrite !app_nil_r.
    + eapply main_steady_trans; [exact H0|].
      eapply main_steady_trans; [exact Hl|]. apply main_finally_block_steady.
Qed.

(** C3. In [main.py] every call site works on a new instance of the service,
    so a finalize right after an append finds nothing, and no run of the
    handler ever writes a file: the files are as before and the trace gains no
    write. In [app.py] the chunk appended at one call site is in the instance
    the next call site gets, and the same completions (a chunk, then a
    timeout) leave the raw file of the client: the two variants differ. *)
Theorem C3_main_never_writes :
  (∀ websocket client_id rs w,
     let r := Main.get_audio websocket client_id rs w in
     files (Main.host r.2) = files (Main.host w) ∧
     writes (trace (Main.host r.2)) = writes (trace (Main.host w))) ∧
  (∀ data client_id z w,
     let w1 := (Main.on_new_instance (Main.process_audio_frame data client_id) w).2 in
     Main.on_new_instance (Main.no_voice_activity client_id z) w1 = (Return tt, w1)) ∧
  (∀ data client_id w,
     let w1 := (App.on_singleton (App.process_audio_frame data client_id) w).2 in
     App.clients_audios (App.instance w1) !! client_id =
       Some (default [] (App.clients_audios (App.instance w) !! client_id) ++ [data])) ∧
  (∀ P : Platform,
     let rs := [binary [x00; x01]; TimeoutError] in
     files (App.host (App.get_audio (H := P) 1%nat "abc" rs boot).2) !! "abc.webm"
       = Some (RawFile [x00; x01]) ∧
     files (Main.host (Main.get_audio 1%nat "abc" rs boot_main).2) !! "abc.webm"
       = None).
Proof.
  split_and!.
  - intros. apply main_get_audio_steady.
  - intros. apply main_no_voice_activity_new.
  - intros data client_id w w1. unfold w1.
    rewrite on_singleton_instance, process_audio_frame_eq. simpl.
    apply lookup_insert_eq.
  - intros P rs. split; vm_compute; reflexivity.
Qed.

(** ** The waveform file *)

Lemma frombuffer_float32_lookup (i : nat) : ∀ (buf : bytes) ws b0 b1 b2 b3,
  frombuffer_float32 buf = Some ws →
  buf !! (4 * i)%nat = Some b0 →
  buf !! (4 * i + 1)%nat = Some b1 →
  buf !! (4 * i + 2)%nat = Some b2 →
  buf !! (4 * i + 3)%nat = Some b3 →
  ws !! i = Some (word_of_le b0 b1 b2 b3).
Proof.
  induction i as [|i IH]; intros buf ws b0 b1 b2 b3 Hws H0 H1 H2 H3.
  - destruct buf as [|c0 [|c1 [|c2 [|c3 rest]]]]; simpl in *; try done.
    destruct (frombuffer_float32 rest) as [ws'|]; [|done].
    by simplify_eq.
  - destruct buf as [|c0 [|c1 [|c2 [|c3 rest]]]]; try done.
    simpl in Hws.
    destruct (frombuffer_float32 rest) as [ws'|] eqn:E; [|done].
    injection Hws as <-. simpl.
    apply (IH rest ws' b0 b1 b2 b3 E).
    + by replace (4 * S i)%nat with (S (S (S (S (4 * i))))) in H0 by lia.
    + by replace (4 * S i + 1)%nat with (S (S (S (S (4 * i + 1))))) in H1 by lia.
    + by replace (4 * S i + 2)%nat with (S (S (S (S (4 * i + 2))))) in H2 by lia.
    + by replace (4 * S i + 3)%nat with (S (S (S (S (4 * i + 3))))) in H3 by lia.
Qed.

Lemma float32_samples_length data :
  length (float32_samples data) = (length data / 4)%nat.
Proof.
  unfold float32_samples.
  by destruct (frombuffer_whole_samples data) as (ws & -> & Hl).
Qed.

Lemma float32_samples_lookup data i b0 b1 b2 b3 :
  data !! (4 * i)%nat = Some b0 →
  data !! (4 * i + 1)%nat = Some b1 →
  data !! (4 * i + 2)%nat = Some b2 →
  data !! (4 * i + 3)%nat = Some b3 →
  float32_samples data !! i = Some (word_of_le b0 b1 b2 b3).
Proof.
  intros H0 H1 H2 H3.
  assert (Hlt : (4 * i + 3 < length data / 4 * 4)%nat).
  { apply lookup_lt_Some in H3.
    assert (S i ≤ length data / 4)%nat; [|lia].
    apply Nat.div_le_lower_bound; lia. }
  unfold float32_samples.
  destruct (frombuffer_whole_samples data) as (ws & Hws & _). rewrite Hws. simpl.
  apply (frombuffer_float32_lookup i (whole_samples data) ws b0 b1 b2 b3 Hws);
    unfold whole_samples; rewrite lookup_take_lt by lia; done.
Qed.

Lemma tobytes_length a : length (tobytes a) = (4 * length a)%nat.
Proof.
  unfold tobytes. induction a as [|z a IH]; [done|].
  simpl. rewrite IH. lia.
Qed.

(** The slice is the longest prefix made of whole samples. *)
Lemma whole_samples_longest data :
  whole_samples data = take (length (whole_samples data)) data ∧
  (length (whole_samples data) mod 4 = 0)%nat ∧
  (∀ k, k ≤ length data → k mod 4 = 0 → k ≤ length (whole_samples data))%nat.
Proof.
  rewrite whole_samples_length. split_and!.
  - unfold whole_samples. f_equal. lia.
  - rewrite Nat.mul_comm. apply Nat.Div0.mod_mul.
  - intros k Hk Hm.
    pose proof (Nat.div_mod_eq k 4) as Hd. rewrite Hm in Hd.
    assert (k / 4 ≤ length data / 4)%nat by (apply Nat.Div0.div_le_mono; lia).
    lia.
Qed.

Section WaveformProperties.
Context `{Platform}.

Lemma astype_int32_in_range x z :
  truncate x = Some z → - 2 ^ 31 ≤ z < 2 ^ 31 → astype_int32 x = z.
Proof.
  intros Ht Hr. unfold astype_int32. rewrite Ht.
  destruct (Z.leb_spec (- 2 ^ 31) z); [|lia].
  destruct (Z.ltb_spec z (2 ^ 31)); [done|lia].
Qed.

(** Some samples, on any machine: 1.0, 0.5, -1.0, 0.0 and the least positive
    value; and the bit pattern of 32767.0. *)
Lemma scale_sample_examples :
  map scale_sample [0x3f800000; 0x3f000000; 0xbf800000; 0; 1] =
    [32767; 16383; -32767; 0; 0] ∧
  decode_binary32 0x46FFFE00 = binary32_32767.
Proof. split; reflexivity. Qed.

(** C5, as the code has it. When [save_audio] has chunks to write and both
    files can be opened, it writes the concatenation to the raw file and then
    hands the same bytes, as they are, to [save_wav]: no codec runs on them.
    The waveform file records 1 channel, 4 bytes per sample and 16000 frames
    per second. Its frames come from the longest prefix of the bytes whose
    length is a multiple of 4: each group of 4 bytes, least significant first,
    is one binary32 sample, which is multiplied by 32767 in binary32 and
    converted to a 32-bit integer (the integer part, when it fits), written
    least significant byte first. *)
Theorem C5_waveform_of_the_raw_bytes client_id chunks s :
  App.clients_audios (App.self s) !! client_id = Some chunks →
  chunks ≠ [] →
  client_id +:+ ".webm" ∉ unwritable (App.env s) →
  client_id +:+ ".wav" ∉ unwritable (App.env s) →
  let buf := b_join chunks in
  let s' := (App.save_audio client_id s).2 in
  let wav := wav_of buf in
  (App.save_audio client_id s).1 = Return tt ∧
  trace (App.env s') =
    trace (App.env s) ++
    [Written (client_id +:+ ".webm") (RawFile buf);
     Written (client_id +:+ ".wav") (WavFile wav);
     Log (Debug_saved client_id (client_id +:+ ".webm"))] ∧
  files (App.env s') !! (client_id +:+ ".webm") = Some (RawFile buf) ∧
  files (App.env s') !! (client_id +:+ ".wav") = Some (WavFile wav) ∧
  nchannels wav = 1 ∧ sampwidth wav = 4 ∧ framerate wav = 16000 ∧
  frames wav = tobytes (map scale_sample (float32_samples buf)) ∧
  length (frames wav) = (4 * (length buf / 4))%nat ∧
  length (float32_samples buf) = (length buf / 4)%nat ∧
  (∀ i b0 b1 b2 b3,
     buf !! (4 * i)%nat = Some b0 → buf !! (4 * i + 1)%nat = Some b1 →
     buf !! (4 * i + 2)%nat = Some b2 → buf !! (4 * i + 3)%nat = Some b3 →
     float32_samples buf !! i = Some (word_of_le b0 b1 b2 b3)) ∧
  (∀ k, k ≤ length buf → k mod 4 = 0 → k ≤ 4 * (length buf / 4))%nat ∧
  (∀ w z,
     truncate (binary32_mul (decode_binary32 w) binary32_32767) = Some z →
     - 2 ^ 31 ≤ z < 2 ^ 31 → scale_sample w = z).
Proof.
  intros Hl Hne Hw1 Hw2 buf s' wav.
  assert (E : App.save_audio client_id s = (Return tt, saved client_id chunks s)).
  { rewrite (save_audio_chunks _ _ chunks) by done. by rewrite decide_False. }
  unfold s'. rewrite E. cbn [fst snd]. unfold saved.
  rewrite decide_False by done.
  cbn [App.env App.set_env App.self App.set_clients_audios trace files store emit].
  fold buf. fold wav.
  split_and!; try reflexivity.
  - by rewrite <- !app_assoc.
  - rewrite lookup_insert_ne; [apply lookup_insert_eq|]. apply webm_wav_distinct.
  - apply lookup_insert_eq.
  - unfold wav, wav_of. simpl.
    by rewrite tobytes_length, length_map, float32_samples_length.
  - apply float32_samples_length.
  - apply float32_samples_lookup.
  - intros k Hk Hm.
    destruct (whole_samples_longest buf) as (_ & _ & Hmax).
    rewrite whole_samples_length in Hmax. by apply Hmax.
  - intros w z Ht Hr. by apply astype_int32_in_range.
Qed.

End WaveformProperties.

(** The four pending bytes [00 00 80 3f] of "abc" are not a WebM stream. No
    codec runs on them: the trace of [save_audio] holds two writes and a log
    line, and the waveform file has the one sample 32767, the bytes read as
    the binary32 value 1.0. *)
Lemma C5_no_codec_runs :
  let s' := (App.save_audio (H := x86_64) "abc" frame_one_sample).2 in
  existsb is_Decoded (trace (App.env s')) = false ∧
  trace (App.env s') =
    [Written "abc.webm" (RawFile [x00; x00; x80; x3f]);
     Written "abc.wav"
       (WavFile {| nchannels := 1; sampwidth := 4; framerate := 16000;
                   frames := [xff; x7f; x00; x00] |});
     Log (Debug_saved "abc" "abc.webm")] ∧
  float32_samples [x00; x00; x80; x3f] = [0x3f800000] ∧
  scale_sample (H := x86_64) 0x3f800000 = 32767.
Proof. vm_compute. auto. Qed.

Lemma C5_waveform_of_the_raw_bytes_witness :
  App.clients_audios (App.self frame_one_sample) !! "abc"
    = Some [[x00; x00; x80; x3f]] ∧
  [[x00; x00; x80; x3f]] ≠ [] ∧
  ("abc.webm" ∉ unwritable (App.env frame_one_sample)) ∧
  ("abc.wav" ∉ unwritable (App.env frame_one_sample)) ∧
  files (App.env (App.save_audio (H := x86_64) "abc" frame_one_sample).2) !! "abc.wav" =
    Some (WavFile {| nchannels := 1; sampwidth := 4; framerate := 16000;
                     frames := [xff; x7f; x00; x00] |}).
Proof.
  assert (Hl : App.clients_audios (App.self frame_one_sample) !! "abc"
               = Some [[x00; x00; x80; x3f]]) by reflexivity.
  assert (Hne : [[x00; x00; x80; x3f]] ≠ []) by discriminate.
  assert (Hw1 : "abc.webm" ∉ unwritable (App.env frame_one_sample))
    by apply not_elem_of_empty.
  assert (Hw2 : "abc.wav" ∉ unwritable (App.env frame_one_sample))
    by apply not_elem_of_empty.
  split; [exact Hl|]. split; [exact Hne|]. split; [exact Hw1|]. split; [exact Hw2|].
  destruct (C5_waveform_of_the_raw_bytes (H := x86_64) "abc" _ frame_one_sample
              Hl Hne Hw1 Hw2) as (_ & _ & _ & Hwav & _).
  exact Hwav.
Defined.

(** * Further properties *)

(** ** The accumulator under interleaved clients *)

Lemma chunks_of_cons client_id c data calls :
  chunks_of client_id ((c, data) :: calls) =
  (if String.eqb c client_id then [data] else []) ++ chunks_of client_id calls.
Proof. unfold chunks_of. simpl. by destruct (String.eqb c client_id). Qed.

(** X1. Whatever the order in which chunks of several clients arrive, each
    client's entry holds its own chunks, after those it held, in their order
    of arrival; a client with no chunk among the calls keeps its entry (or
    its absence); no file is written. *)
Theorem X1_chunks_are_kept_per_client calls s :
  let r := process_all calls s in
  r.1 = Return tt ∧
  (∀ client_id,
     App.clients_audios (App.self r.2) !! client_id =
     match chunks_of client_id calls with
     | [] => App.clients_audios (App.self s) !! client_id
     | _ :: _ => Some (pending client_id s ++ chunks_of client_id calls)
     end) ∧
  files (App.env r.2) = files (App.env s) ∧
  writes (trace (App.env r.2)) = writes (trace (App.env s)).
Proof.
  revert s. induction calls as [|[c data] calls IH]; intros s; simpl.
  - by split_and!.
  - unfold bind. rewrite process_audio_frame_eq.
    set (s1 := App.set_env _ _).
    destruct (IH s1) as (Hr & Hl & Hf & Hw).
    destruct (process_all calls s1) as [r s2]; simpl in *. subst r.
    split_and!; [done| |by rewrite Hf|].
    + intros client_id. rewrite Hl, chunks_of_cons.
      destruct (String.eqb_spec c client_id) as [->|Hne]; simpl.
      * assert (Hp : pending client_id s1 = pending client_id s ++ [data]).
        { unfold pending, s1. simpl. by rewrite lookup_insert_eq. }
        rewrite Hp, <- app_assoc. simpl.
        destruct (chunks_of client_id calls); [|done].
        unfold s1. simpl. by rewrite lookup_insert_eq.
      * assert (Hp : pending client_id s1 = pending client_id s).
        { unfold pending, s1. simpl. by rewrite lookup_insert_ne. }
        rewrite Hp.
        destruct (chunks_of client_id calls); [|done].
        unfold s1. simpl. by rewrite lookup_insert_ne.
    + rewrite Hw. unfold s1. simpl. rewrite writes_app. simpl. apply app_nil_r.
Qed.

(** ** Finalize: failure and repetition *)

Section FinalizeProperties.
Context `{Platform}.

(** X2. When chunks are pending and the raw file cannot be opened, the
    finalize raises the [OSError] of the open; nothing is written or logged,
    and the chunks are gone all the same, since they are popped before the
    file is opened: a later finalize finds nothing to write. *)
Theorem X2_failed_raw_write_loses_the_chunks client_id chunks z s :
  App.clients_audios (App.self s) !! client_id = Some chunks →
  chunks ≠ [] →
  client_id +:+ ".webm" ∈ unwritable (App.env s) →
  let r := App.no_voice_activity client_id z s in
  r.1 = Raise (OSError (client_id +:+ ".webm")) ∧
  App.save_audio client_id s = r ∧
  App.env r.2 = App.env s ∧
  App.clients_audios (App.self r.2) !! client_id = None ∧
  App.no_voice_activity client_id z r.2 = (Return tt, r.2).
Proof.
  intros Hl Hne Hu r. unfold r.
  rewrite (no_voice_activity_chunks _ _ _ chunks) by done.
  rewrite (save_audio_chunks _ _ chunks) by done.
  rewrite decide_True by done. simpl.
  split_and!; try done.
  - apply lookup_delete_eq.
  - apply no_voice_activity_nothing. left. simpl. apply lookup_delete_eq.
Qed.

Lemma round_spec chunks client_id z s :
  App.clients_audios (App.self s) !! client_id = None →
  chunks ≠ [] →
  client_id +:+ ".webm" ∉ unwritable (App.env s) →
  client_id +:+ ".wav" ∉ unwritable (App.env s) →
  let r := round chunks client_id z s in
  r.1 = Return tt ∧
  App.clients_audios (App.self r.2) !! client_id = None ∧
  unwritable (App.env r.2) = unwritable (App.env s) ∧
  files (App.env r.2) =
    <[client_id +:+ ".wav" := WavFile (wav_of (b_join chunks))]>
      (<[client_id +:+ ".webm" := RawFile (b_join chunks)]> (files (App.env s))) ∧
  writes (trace (App.env r.2)) =
    writes (trace (App.env s)) ++
    [(client_id +:+ ".webm", RawFile (b_join chunks));
     (client_id +:+ ".wav", WavFile (wav_of (b_join chunks)))].
Proof.
  intros Hfresh Hne Hw1 Hw2 r. unfold r, round, bind.
  destruct (append_all_spec chunks client_id s) as (Hr & Hl & _ & Hf & Hu & Ht).
  destruct (append_all chunks client_id s) as [r1 s1]; simpl in *. subst r1.
  assert (Hl1 : App.clients_audios (App.self s1) !! client_id = Some chunks).
  { rewrite Hl. unfold pending. rewrite Hfresh. by destruct chunks. }
  rewrite (no_voice_activity_chunks _ _ _ chunks) by done.
  rewrite (save_audio_chunks _ _ chunks) by done.
  rewrite Hu, decide_False by done. simpl. unfold saved.
  rewrite Hu, decide_False by done. simpl.
  split_and!; try done.
  - apply lookup_delete_eq.
  - by rewrite Hf.
  - rewrite !writes_app, Ht, writes_app. simpl.
    assert (Hlog : writes (map (fun c : bytes => Log (Debug_received (length c) client_id))
                             chunks) = []).
    { clear. induction chunks as [|c cs IH]; [done|]. simpl. exact IH. }
    rewrite Hlog, !app_nil_r. by rewrite <- app_assoc.
Qed.

(** X3. Two rounds for one client, each with chunks, both files writable:
    each finalize writes its own round only. The trace holds the two pairs of
    writes in order, no chunk of the first round is in the second pair, and
    the files hold the second round: the later finalize replaces the files of
    the earlier one. *)
Theorem X3_each_round_is_written_once client_id chunks1 chunks2 z s :
  App.clients_audios (App.self s) !! client_id = None →
  chunks1 ≠ [] →
  chunks2 ≠ [] →
  client_id +:+ ".webm" ∉ unwritable (App.env s) →
  client_id +:+ ".wav" ∉ unwritable (App.env s) →
  let r := (round chunks1 client_id z ;; round chunks2 client_id z) s in
  r.1 = Return tt ∧
  App.clients_audios (App.self r.2) !! client_id = None ∧
  writes (trace (App.env r.2)) =
    writes (trace (App.env s)) ++
    [(client_id +:+ ".webm", RawFile (b_join chunks1));
     (client_id +:+ ".wav", WavFile (wav_of (b_join chunks1)));
     (client_id +:+ ".webm", RawFile (b_join chunks2));
     (client_id +:+ ".wav", WavFile (wav_of (b_join chunks2)))] ∧
  files (App.env r.2) !! (client_id +:+ ".webm") = Some (RawFile (b_join chunks2)) ∧
  files (App.env r.2) !! (client_id +:+ ".wav") =
    Some (WavFile (wav_of (b_join chunks2))).
Proof.
  intros Hfresh Hne1 Hne2 Hw1 Hw2 r. unfold r, bind.
  destruct (round_spec chunks1 client_id z s Hfresh Hne1 Hw1 Hw2)
    as (Hr1 & Hl1 & Hu1 & Hf1 & Ht1).
  destruct (round chunks1 client_id z s) as [r1 s1]; simpl in *. subst r1.
  destruct (round_spec chunks2 client_id z s1 Hl1 Hne2) as (Hr2 & Hl2 & _ & Hf2 & Ht2).
  { by rewrite Hu1. }
  { by rewrite Hu1. }
  destruct (round chunks2 client_id z s1) as [r2 s2]; simpl in *.
  split_and!; try done.
  - rewrite Ht2, Ht1. by rewrite <- app_assoc.
  - rewrite Hf2. rewrite lookup_insert_ne; [apply lookup_insert_eq|].
    apply webm_wav_distinct.
  - rewrite Hf2. apply lookup_insert_eq.
Qed.

End FinalizeProperties.

Lemma X2_failed_raw_write_loses_the_chunks_witness :
  App.clients_audios (App.self frame_raw_locked) !! "abc" = Some [[x00; x01]] ∧
  [[x00; x01]] ≠ [] ∧
  "abc.webm" ∈ unwritable (App.env frame_raw_locked) ∧
  (let r := App.no_voice_activity (H := x86_64) "abc" (-1) frame_raw_locked in
   r.1 = Raise (OSError "abc.webm") ∧
   App.clients_audios (App.self r.2) !! "abc" = None ∧
   files (App.env r.2) = ∅).
Proof.
  assert (Hl : App.clients_audios (App.self frame_raw_locked) !! "abc"
               = Some [[x00; x01]]) by reflexivity.
  assert (Hne : [[x00; x01]] ≠ []) by discriminate.
  assert (Hu : "abc.webm" ∈ unwritable (App.env frame_raw_locked)).
  { simpl. by rewrite elem_of_singleton. }
  split; [exact Hl|]. split; [exact Hne|]. split; [exact Hu|].
  destruct (X2_failed_raw_write_loses_the_chunks (H := x86_64) "abc" _ (-1)
              frame_raw_locked Hl Hne Hu) as (Hr & _ & He & Hgone & _).
  split; [exact Hr|]. split; [exact Hgone|]. by rewrite He.
Defined.

Lemma X3_each_round_is_written_once_witness :
  App.clients_audios (App.self frame0) !! "abc" = None ∧
  [[x00; x01]] ≠ [] ∧ [[x02]; [x03]] ≠ [] ∧
  ("abc.webm" ∉ unwritable (App.env frame0)) ∧
  ("abc.wav" ∉ unwritable (App.env frame0)) ∧
  (let r := (round (H := x86_64) [[x00; x01]] "abc" (-1) ;;
             round (H := x86_64) [[x02]; [x03]] "abc" (-1)) frame0 in
   r.1 = Return tt ∧
   files (App.env r.2) !! "abc.webm" = Some (RawFile [x02; x03])).
Proof.
  assert (Hfresh : App.clients_audios (App.self frame0) !! "abc" = None)
    by reflexivity.
  assert (Hne1 : [[x00; x01]] ≠ []) by discriminate.
  assert (Hne2 : [[x02]; [x03]] ≠ []) by discriminate.
  assert (Hw1 : "abc.webm" ∉ unwritable (App.env frame0)) by apply not_elem_of_empty.
  assert (Hw2 : "abc.wav" ∉ unwritable (App.env frame0)) by apply not_elem_of_empty.
  split; [exact Hfresh|]. split; [exact Hne1|]. split; [exact Hne2|].
  split; [exact Hw1|]. split; [exact Hw2|].
  destruct (X3_each_round_is_written_once (H := x86_64) "abc" _ _ (-1) frame0
              Hfresh Hne1 Hne2 Hw1 Hw2) as (Hr & _ & _ & Hraw & _).
  split; [exact Hr|exact Hraw].
Defined.

(** ** The handler of [app.py]: other clients, abrupt ends, exceptions *)

Section MoreHandlerProperties.
Context `{Platform}.

Lemma apart_refl client_id w : apart client_id w w.
Proof. by split_and!. Qed.

Lemma apart_trans client_id w w1 w2 :
  apart client_id w w1 → apart client_id w1 w2 → apart client_id w w2.
Proof.
  intros (Ha & Hb & Hc) (Ha' & Hb' & Hc'). split_and!.
  - intros j Hj. by rewrite Ha', Ha.
  - intros j Hj. by rewrite Hb', Hb.
  - intros fn H1 H2. by rewrite Hc', Hc.
Qed.

Lemma bind_apart {A B} client_id (m : M App.world A) (k : A → M App.world B) w :
  apart client_id w (m w).2 →
  (∀ a w1, apart client_id w1 (k a w1).2) →
  apart client_id w (bind m k w).2.
Proof.
  intros Hm Hk. unfold bind. destruct (m w) as [[a|e] w1]; simpl in *.
  - eapply apart_trans; [exact Hm|apply Hk].
  - exact Hm.
Qed.

Lemma on_singleton_process_audio_frame_apart data client_id w :
  apart client_id w (App.on_singleton (App.process_audio_frame data client_id) w).2.
Proof.
  unfold App.on_singleton. rewrite process_audio_frame_eq. simpl.
  split_and!; try done.
  intros j Hj. simpl. by rewrite lookup_insert_ne.
Qed.

Lemma on_singleton_no_voice_activity_apart client_id z w :
  apart client_id w (App.on_singleton (App.no_voice_activity client_id z) w).2.
Proof.
  unfold App.on_singleton.
  destruct (no_voice_activity_cases client_id z
              {| App.self := App.instance w; App.env := App.host w |})
    as [[_ ->] | [(chunks & _ & _ & _ & ->) | (chunks & _ & _ & _ & ->)]]; simpl.
  - by split_and!.
  - split_and!; try done. intros j Hj. simpl. by rewrite lookup_delete_ne.
  - unfold saved. simpl. split_and!; try done.
    + intros j Hj. destruct (decide _); simpl; by rewrite lookup_delete_ne.
    + intros fn H1 H2. destruct (decide _); simpl.
      * by rewrite lookup_insert_ne.
      * by rewrite !lookup_insert_ne.
Qed.

Lemma receive_loop_apart client_id rs w :
  apart client_id w (App.receive_loop client_id rs w).2.
Proof.
  revert w. induction rs as [|r rs IH]; intros w; [apply apart_refl|].
  destruct r as [|[[data|] [t|]]|e]; simpl.
  - apply bind_apart; [apply on_singleton_no_voice_activity_apart|auto].
  - apply bind_apart; [apply on_singleton_process_audio_frame_apart|auto].
  - apply bind_apart; [apply on_singleton_process_audio_frame_apart|auto].
  - destruct (String.eqb t "close()"); [|apply IH].
    apply bind_apart; [apply on_singleton_no_voice_activity_apart|].
    intros; apply apart_refl.
  - apply apart_refl.
  - apply apart_refl.
Qed.

Lemma finally_block_apart client_id w :
  apart client_id w (App.finally_block client_id w).
Proof.
  unfold App.finally_block, App.on_singleton, App.pop_clients_audios, bind, gets.
  simpl.
  destruct (App.clients_audios (App.instance w) !! client_id) as [l|] eqn:E; simpl.
  - split_and!; try done; intros j Hj; simpl; by rewrite lookup_delete_ne.
  - split_and!; try done; intros j Hj; simpl; by rewrite lookup_delete_ne.
Qed.

Lemma accept_block_apart websocket client_id w :
  apart client_id w (App.accept_block websocket client_id w).
Proof.
  split_and!; try done. intros j Hj. simpl. by rewrite lookup_insert_ne.
Qed.

Lemma get_audio_apart websocket client_id rs w :
  apart client_id w (App.get_audio websocket client_id rs w).2.
Proof.
  unfold App.get_audio.
  set (w0 := App.accept_block websocket client_id w).
  assert (H0 : apart client_id w w0) by apply accept_block_apart.
  pose proof (receive_loop_apart client_id rs w0) as Hl.
  destruct (App.receive_loop client_id rs w0) as [[[]|e] w1]; simpl in *.
  - eapply apart_trans; [exact H0|].
    eapply apart_trans; [exact Hl|apply finally_block_apart].
  - eapply apart_trans; eauto.
  - assert (He : apart client_id w1 (App.except_block client_id e w1))
      by by split_and!.
    destruct (is_Exception e); simpl.
    + eapply apart_trans; [exact H0|]. eapply apart_trans; [exact Hl|].
      eapply apart_trans; [exact He|apply finally_block_apart].
    + eapply apart_trans; [exact H0|].
      eapply apart_trans; [exact Hl|apply finally_block_apart].
Qed.

(** X4. A run of the handler for one client, however it goes, leaves the
    other clients as they are: their registrations, their pending chunks, and
    every file but the two named after this client. *)
Theorem X4_other_clients_are_left_alone websocket client_id rs w :
  let r := App.get_audio websocket client_id rs w in
  (∀ j, j ≠ client_id →
        App.connected_clients r.2 !! j = App.connected_clients w !! j) ∧
  (∀ j, j ≠ client_id →
        App.clients_audios (App.instance r.2) !! j =
        App.clients_audios (App.instance w) !! j) ∧
  (∀ filename, filename ≠ client_id +:+ ".webm" → filename ≠ client_id +:+ ".wav" →
               files (App.host r.2) !! filename = files (App.host w) !! filename).
Proof. apply get_audio_apart. Qed.

(** A handler that is over has unregistered its client and dropped what was
    pending for it. *)
Lemma get_audio_when_over websocket client_id rs w :
  let r := App.get_audio websocket client_id rs w in
  r.1 ≠ Suspended →
  App.connected_clients r.2 !! client_id = None ∧
  App.clients_audios (App.instance r.2) !! client_id = None.
Proof.
  intros r. unfold r, App.get_audio.
  destruct (App.receive_loop client_id rs _) as [[[]|e] w1]; simpl.
  - intros _. destruct (finally_block_spec client_id w1) as (H1 & H2 & _). done.
  - done.
  - intros _. destruct (is_Exception e); simpl.
    + destruct (finally_block_spec client_id (App.except_block client_id e w1))
        as (H1 & H2 & _). done.
    + destruct (finally_block_spec client_id w1) as (H1 & H2 & _). done.
Qed.

(** What a step without a finalize leaves as it is. *)
Lemma receive_loop_without_finalize client_id rs w :
  Forall (fun r => finalizes r = false) rs →
  let w1 := (App.receive_loop client_id rs w).2 in
  files (App.host w1) = files (App.host w) ∧
  writes (trace (App.host w1)) = writes (trace (App.host w)).
Proof.
  revert w. induction rs as [|r rs IH]; intros w Hall; [done|].
  apply Forall_cons in Hall as [Hr Hall].
  assert (Hstep : ∀ data,
            let w1 := (App.receive_loop client_id rs
                         (App.on_singleton (App.process_audio_frame data client_id) w).2).2 in
            files (App.host w1) = files (App.host w) ∧
            writes (trace (App.host w1)) = writes (trace (App.host w))).
  { intros data. destruct (IH (App.on_singleton
                                 (App.process_audio_frame data client_id) w).2 Hall)
      as [Hf Hw].
    simpl. rewrite Hf, Hw. unfold App.on_singleton.
    rewrite process_audio_frame_eq. simpl.
    split; [done|]. rewrite writes_app. simpl. apply app_nil_r. }
  destruct r as [|[[data|] [t|]]|e]; simpl in *; unfold bind.
  - done.
  - pose proof (on_singleton_fst (App.process_audio_frame data client_id) w) as E.
    rewrite process_audio_frame_returns in E.
    specialize (Hstep data).
    destruct (App.on_singleton _ w) as [[[]|e] w1]; simpl in *; done.
  - pose proof (on_singleton_fst (App.process_audio_frame data client_id) w) as E.
    rewrite process_audio_frame_returns in E.
    specialize (Hstep data).
    destruct (App.on_singleton _ w) as [[[]|e] w1]; simpl in *; done.
  - rewrite Hr. by apply IH.
  - done.
  - done.
Qed.

(** X5. Files come from a timeout or from the close token only. A run of the
    handler whose completions hold neither writes nothing, however many
    chunks it received; when such a run is over (a disconnect message, an
    exception out of [receive]), the chunks are dropped without a file. *)
Theorem X5_no_file_without_timeout_or_close websocket client_id rs w :
  Forall (fun r => finalizes r = false) rs →
  let r := App.get_audio websocket client_id rs w in
  files (App.host r.2) = files (App.host w) ∧
  writes (trace (App.host r.2)) = writes (trace (App.host w)) ∧
  (r.1 ≠ Suspended →
   App.clients_audios (App.instance r.2) !! client_id = None).
Proof.
  intros Hall r.
  assert (Hfin : ∀ w1, files (App.host (App.finally_block client_id w1)) =
                         files (App.host w1) ∧
                       writes (trace (App.host (App.finally_block client_id w1))) =
                         writes (trace (App.host w1))).
  { intros w1. destruct (finally_block_spec client_id w1) as (_ & _ & Ht & Hf).
    split; [exact Hf|]. rewrite Ht, writes_app. simpl. apply app_nil_r. }
  split_and!; [| |apply get_audio_when_over].
  - unfold r, App.get_audio.
    set (w0 := App.accept_block websocket client_id w).
    destruct (receive_loop_without_finalize client_id rs w0 Hall) as [Hf _].
    destruct (App.receive_loop client_id rs w0) as [[[]|e] w1]; simpl in *.
    + by rewrite (proj1 (Hfin w1)).
    + done.
    + destruct (is_Exception e); simpl; by rewrite (proj1 (Hfin _)).
  - unfold r, App.get_audio.
    set (w0 := App.accept_block websocket client_id w).
    destruct (receive_loop_without_finalize client_id rs w0 Hall) as [_ Hw].
    assert (Hw0 : writes (trace (App.host w0)) = writes (trace (App.host w))).
    { unfold w0. simpl. rewrite writes_app. simpl. apply app_nil_r. }
    destruct (App.receive_loop client_id rs w0) as [[[]|e] w1]; simpl in *.
    + rewrite (proj2 (Hfin w1)). congruence.
    + congruence.
    + destruct (is_Exception e); simpl; rewrite (proj2 (Hfin _)); simpl.
      * rewrite !writes_app. simpl. rewrite !app_nil_r. congruence.
      * congruence.
Qed.

(** An exception that leaves the loop came out of [receive], or is the
    [OSError] of a finalize. *)
Lemma receive_loop_raises client_id rs w e :
  (App.receive_loop client_id rs w).1 = Raise e →
  In (Raised e) rs ∨ e = OSError (client_id +:+ ".webm").
Proof.
  revert w. induction rs as [|r rs IH]; intros w; [done|].
  assert (Hnva : ∀ k : unit → M App.world loop_state,
            (∀ w1, (k tt w1).1 = Raise e →
                   In (Raised e) rs ∨ e = OSError (client_id +:+ ".webm")) →
            (bind (App.on_singleton (App.no_voice_activity client_id (-1))) k w).1
              = Raise e →
            In (Raised e) rs ∨ e = OSError (client_id +:+ ".webm")).
  { intros k Hk. unfold bind.
    pose proof (on_singleton_fst (App.no_voice_activity client_id (-1)) w) as E.
    destruct (no_voice_activity_cases client_id (-1)
                {| App.self := App.instance w; App.env := App.host w |})
      as [[_ Hc] | [(chunks & _ & _ & _ & Hc) | (chunks & _ & _ & _ & Hc)]];
      rewrite Hc in E; simpl in E;
      destruct (App.on_singleton _ w) as [[[]|e'] w1]; simpl in *;
      try discriminate; try apply Hk.
    intros [= <-]. right. congruence. }
  destruct r as [|[[data|] [t|]]|e']; simpl.
  - intros Hr. apply Hnva in Hr; [tauto|]. intros w1 H1. apply IH in H1. tauto.
  - unfold bind.
    pose proof (on_singleton_fst (App.process_audio_frame data client_id) w) as E.
    rewrite process_audio_frame_returns in E.
    destruct (App.on_singleton _ w) as [[[]|e'] w1]; simpl in *; [|done].
    intros H1. apply IH in H1. tauto.
  - unfold bind.
    pose proof (on_singleton_fst (App.process_audio_frame data client_id) w) as E.
    rewrite process_audio_frame_returns in E.
    destruct (App.on_singleton _ w) as [[[]|e'] w1]; simpl in *; [|done].
    intros H1. apply IH in H1. tauto.
  - destruct (String.eqb t "close()").
    + intros Hr. apply Hnva in Hr; [tauto|]. intros w1 H1. done.
    + intros H1. apply IH in H1. tauto.
  - done.
  - intros [= ->]. left. by left.
Qed.

(** X6. No [Exception] leaves the handler. An exception propagates out of it
    only if it is not an [Exception] (a cancellation) and came out of
    [receive]; an [Exception] out of [receive], met while the handler is
    suspended, ends it normally after the two error lines and the cleanup. *)
Theorem X6_only_cancellation_propagates websocket client_id rs w :
  let r := App.get_audio websocket client_id rs w in
  (∀ e, r.1 = Propagated e → is_Exception e = false ∧ In (Raised e) rs) ∧
  (∀ pre e post,
     rs = pre ++ Raised e :: post →
     (App.get_audio websocket client_id pre w).1 = Suspended →
     is_Exception e = true →
     let w1 := (App.get_audio websocket client_id pre w).2 in
     r.1 = Returned ∧
     trace (App.host r.2) =
       trace (App.host w1) ++
       [Log (Error_closed client_id e); Log (Error_traceback e);
        Unregistered client_id]).
Proof.
  intros r. split.
  - intros e. unfold r, App.get_audio.
    pose proof (receive_loop_raises client_id rs
                  (App.accept_block websocket client_id w)) as Hraise.
    destruct (App.receive_loop client_id rs _) as [[[]|e'] w1]; simpl in *; try done.
    destruct (is_Exception e') eqn:Hex; simpl; [done|].
    intros [= <-]. split; [done|].
    destruct (Hraise e' eq_refl) as [Hin | ->]; [done|discriminate].
  - intros pre e post -> Hs Hex w1. unfold r.
    rewrite get_audio_app by done. fold w1. simpl. rewrite Hex. simpl.
    split; [done|].
    destruct (finally_block_spec client_id (App.except_block client_id e w1))
      as (_ & _ & Ht & _).
    rewrite Ht. simpl. by rewrite <- !app_assoc.
Qed.

(** X7. Two connections under one identifier share one registration and one
    buffer. The later connection replaces the registration of the earlier;
    when the earlier one ends, its cleanup removes the registration and the
    pending chunks, although the later connection is still open. *)
Theorem X7_same_identifier_connections_interfere
    websocket1 websocket2 client_id rs1 rs2 rs1' w :
  let first := App.get_audio websocket1 client_id rs1 w in
  let second := App.get_audio websocket2 client_id rs2 first.2 in
  let first' := resume client_id rs1' second.2 in
  first.1 = Suspended →
  second.1 = Suspended →
  first'.1 ≠ Suspended →
  App.connected_clients second.2 !! client_id = Some websocket2 ∧
  App.connected_clients first'.2 !! client_id = None ∧
  App.clients_audios (App.instance first'.2) !! client_id = None.
Proof.
  intros first second first' Hs1 Hs2 Hover.
  split; [by apply get_audio_while_suspended|].
  unfold first', resume in *.
  destruct (App.receive_loop client_id rs1' second.2) as [[[]|e] w1]; simpl in *.
  - destruct (finally_block_spec client_id w1) as (H1 & H2 & _). done.
  - done.
  - destruct (is_Exception e); simpl.
    + destruct (finally_block_spec client_id (App.except_block client_id e w1))
        as (H1 & H2 & _). done.
    + destruct (finally_block_spec client_id w1) as (H1 & H2 & _). done.
Qed.

(** X8. The lookup endpoint changes nothing. For a client whose handler is
    suspended in [receive] it returns the stored connection object; once the
    handler is over it returns the default, as for a client never seen; the
    answers for other clients are not affected by the handler. *)
Theorem X8_lookup_follows_the_handler websocket client_id rs w :
  let r := App.get_audio websocket client_id rs w in
  (∀ j w', (AppRest.get_audio_api j w').2 = w') ∧
  (r.1 = Suspended →
   (AppRest.get_audio_api client_id r.2).1 = Return (AppRest.Stored websocket)) ∧
  (r.1 ≠ Suspended →
   (AppRest.get_audio_api client_id r.2).1 =
   Return (AppRest.Default {| AppRest.texts := []; AppRest.note := None |})) ∧
  (∀ j, j ≠ client_id →
        (AppRest.get_audio_api j r.2).1 = (AppRest.get_audio_api j w).1).
Proof.
  intros r. unfold AppRest.get_audio_api, gets. simpl. split_and!.
  - done.
  - intros Hs.
    destruct (get_audio_while_suspended websocket client_id rs w Hs) as [Hc _].
    fold r in Hc. by rewrite Hc.
  - intros Hover.
    destruct (get_audio_when_over websocket client_id rs w Hover) as [Hc _].
    fold r in Hc. by rewrite Hc.
  - intros j Hj.
    destruct (get_audio_apart websocket client_id rs w) as (Hc & _ & _).
    fold r in Hc. by rewrite Hc.
Qed.

End MoreHandlerProperties.

Lemma X4_other_clients_are_left_alone_witness :
  "xyz" ≠ "abc" ∧
  (let r := App.get_audio (H := x86_64) 1%nat "abc"
              [binary [x00; x01]; TimeoutError] boot in
   App.connected_clients r.2 !! "xyz" = App.connected_clients boot !! "xyz" ∧
   App.clients_audios (App.instance r.2) !! "xyz" =
     App.clients_audios (App.instance boot) !! "xyz").
Proof.
  assert (Hne : "xyz" ≠ "abc") by discriminate.
  split; [exact Hne|].
  destruct (X4_other_clients_are_left_alone (H := x86_64) 1%nat "abc"
              [binary [x00; x01]; TimeoutError] boot) as (Hc & Ha & _).
  split; [exact (Hc "xyz" Hne)|exact (Ha "xyz" Hne)].
Defined.

(** "abc" sends a chunk and disconnects before any timeout. *)
Lemma X5_no_file_without_timeout_or_close_witness :
  Forall (fun r => finalizes r = false) [binary [x00; x01]; disconnect] ∧
  (let r := App.get_audio (H := x86_64) 1%nat "abc"
              [binary [x00; x01]; disconnect] boot in
   r.1 ≠ Suspended ∧
   files (App.host r.2) = ∅ ∧
   App.clients_audios (App.instance r.2) !! "abc" = None).
Proof.
  assert (Hall : Forall (fun r => finalizes r = false) [binary [x00; x01]; disconnect])
    by (repeat constructor).
  split; [exact Hall|].
  assert (Hover : (App.get_audio (H := x86_64) 1%nat "abc"
                     [binary [x00; x01]; disconnect] boot).1 ≠ Suspended)
    by (vm_compute; discriminate).
  destruct (X5_no_file_without_timeout_or_close (H := x86_64) 1%nat "abc"
              [binary [x00; x01]; disconnect] boot Hall) as (Hf & _ & Hgone).
  split; [exact Hover|]. split; [exact Hf|exact (Hgone Hover)].
Defined.

(** The transport fails while "abc" is connected. *)
Lemma X6_only_cancellation_propagates_witness :
  (App.get_audio (H := x86_64) 1%nat "abc" [binary [x00]] boot).1 = Suspended ∧
  is_Exception WebSocketDisconnect = true ∧
  (App.get_audio (H := x86_64) 1%nat "abc"
     [binary [x00]; Raised WebSocketDisconnect] boot).1 = Returned.
Proof.
  assert (Hs : (App.get_audio (H := x86_64) 1%nat "abc" [binary [x00]] boot).1
               = Suspended) by (vm_compute; reflexivity).
  split; [exact Hs|]. split; [reflexivity|].
  destruct (X6_only_cancellation_propagates (H := x86_64) 1%nat "abc"
              [binary [x00]; Raised WebSocketDisconnect] boot) as (_ & Hexc).
  exact (proj1 (Hexc [binary [x00]] WebSocketDisconnect [] eq_refl Hs eq_refl)).
Defined.

(** Two connections of "abc"; the first one disconnects. *)
Lemma X7_same_identifier_connections_interfere_witness :
  let first := App.get_audio (H := x86_64) 1%nat "abc" [binary [x00]] boot in
  let second := App.get_audio (H := x86_64) 2%nat "abc" [binary [x01]] first.2 in
  let first' := resume (H := x86_64) "abc" [disconnect] second.2 in
  first.1 = Suspended ∧ second.1 = Suspended ∧ first'.1 ≠ Suspended ∧
  App.clients_audios (App.instance second.2) !! "abc" = Some [[x00]; [x01]] ∧
  App.connected_clients second.2 !! "abc" = Some 2%nat ∧
  App.connected_clients first'.2 !! "abc" = None ∧
  App.clients_audios (App.instance first'.2) !! "abc" = None.
Proof.
  intros first second first'.
  assert (Hs1 : first.1 = Suspended) by (vm_compute; reflexivity).
  assert (Hs2 : second.1 = Suspended) by (vm_compute; reflexivity).
  assert (Hover : first'.1 ≠ Suspended) by (vm_compute; discriminate).
  split; [exact Hs1|]. split; [exact Hs2|]. split; [exact Hover|].
  split; [vm_compute; reflexivity|].
  exact (X7_same_identifier_connections_interfere (H := x86_64) 1%nat 2%nat "abc"
           [binary [x00]] [binary [x01]] [disconnect] boot Hs1 Hs2 Hover).
Defined.

Lemma X8_lookup_follows_the_handler_witness :
  (App.get_audio (H := x86_64) 1%nat "abc" [binary [x00]] boot).1 = Suspended ∧
  (AppRest.get_audio_api "abc"
     (App.get_audio (H := x86_64) 1%nat "abc" [binary [x00]] boot).2).1
    = Return (AppRest.Stored 1%nat).
Proof.
  assert (Hs : (App.get_audio (H := x86_64) 1%nat "abc" [binary [x00]] boot).1
               = Suspended) by (vm_compute; reflexivity).
  split; [exact Hs|].
  destruct (X8_lookup_follows_the_handler (H := x86_64) 1%nat "abc"
              [binary [x00]] boot) as (_ & Hstored & _).
  exact (Hstored Hs).
Defined.

(** ** The service and the handler of [main.py] *)

Lemma main_process_audio_frame_eq data client_id s :
  Main.process_audio_frame data client_id s =
  (Return tt,
   Main.set_env (emit (Log (Debug_received_from client_id)))
     (Main.set_clients_audios
        (fun m => <[client_id := default [] (m !! client_id) ++ [data]]> m) s)).
Proof.
  unfold Main.process_audio_frame, bind, gets, modify, ret, Main.logging.
  destruct s as [[m] o]; simpl.
  destruct (m !! client_id) as [l|] eqn:E; simpl.
  - unfold modify. do 2 f_equal. unfold Main.set_clients_audios; simpl. do 2 f_equal.
    apply map_eq; intros j. destruct (decide (client_id = j)) as [->|Hne].
    + by rewrite lookup_alter_eq, lookup_insert_eq, E.
    + by rewrite lookup_alter_ne, lookup_insert_ne.
  - unfold modify. do 2 f_equal. unfold Main.set_clients_audios; simpl. do 2 f_equal.
    apply map_eq; intros j. destruct (decide (client_id = j)) as [->|Hne].
    + by rewrite lookup_alter_eq, !lookup_insert_eq, E.
    + by rewrite lookup_alter_ne, !lookup_insert_ne.
Qed.

Lemma main_append_all_spec chunks client_id s :
  let r := main_append_all chunks client_id s in
  r.1 = Return tt ∧
  Main.clients_audios (Main.self r.2) !! client_id =
    match chunks with
    | [] => Main.clients_audios (Main.self s) !! client_id
    | _ :: _ => Some (default [] (Main.clients_audios (Main.self s) !! client_id)
                      ++ chunks)
    end ∧
  files (Main.env r.2) = files (Main.env s) ∧
  unwritable (Main.env r.2) = unwritable (Main.env s) ∧
  writes (trace (Main.env r.2)) = writes (trace (Main.env s)).
Proof.
  revert s. induction chunks as [|c cs IH]; intros s; simpl.
  - by split_and!.
  - unfold bind. rewrite main_process_audio_frame_eq.
    set (s1 := Main.set_env _ _).
    destruct (IH s1) as (Hr & Hl & Hf & Hu & Hw).
    destruct (main_append_all cs client_id s1) as [r s2]; simpl in *. subst r.
    split_and!; try done.
    + rewrite Hl. unfold s1. simpl. rewrite lookup_insert_eq. simpl.
      destruct cs; [done|]. by rewrite <- app_assoc.
    + rewrite Hw. unfold s1. simpl. rewrite writes_app. simpl. apply app_nil_r.
Qed.

(** X9. The class of [main.py], used on one object, works: from nothing
    pending, the chunks appended are finalized in their order of arrival into
    the raw file, which is the only file written, and the buffer is empty
    afterwards. What the handler of [main.py] loses, it loses by making a new
    object at each call. *)
Theorem X9_main_service_on_one_object client_id chunks z s :
  Main.clients_audios (Main.self s) !! client_id = None →
  chunks ≠ [] →
  client_id +:+ ".webm" ∉ unwritable (Main.env s) →
  let s1 := (main_append_all chunks client_id s).2 in
  let r := Main.no_voice_activity client_id z s1 in
  r.1 = Return tt ∧
  Main.clients_audios (Main.self r.2) !! client_id = None ∧
  files (Main.env r.2) =
    <[client_id +:+ ".webm" := RawFile (b_join chunks)]> (files (Main.env s)) ∧
  writes (trace (Main.env r.2)) =
    writes (trace (Main.env s)) ++ [(client_id +:+ ".webm", RawFile (b_join chunks))].
Proof.
  intros Hfresh Hne Hw s1 r.
  destruct (main_append_all_spec chunks client_id s) as (_ & Hl & Hf & Hu & Ht).
  fold s1 in Hl, Hf, Hu, Ht.
  assert (Hl1 : Main.clients_audios (Main.self s1) !! client_id = Some chunks).
  { rewrite Hl, Hfresh. by destruct chunks. }
  destruct chunks as [|c cs]; [done|].
  unfold r. clear r. clearbody s1.
  unfold Main.no_voice_activity, bind, gets. rewrite Hl1.
  unfold Main.save_audio, bind, Main.clients_audios_pop. rewrite Hl1.
  unfold Main.open_wb. simpl Main.env. rewrite Hu.
  destruct (decide (client_id +:+ ".webm" ∈ unwritable (Main.env s))); [done|].
  simpl.
  split_and!; try done.
  - apply lookup_delete_eq.
  - by rewrite Hf.
  - rewrite !writes_app, Ht. simpl. by rewrite app_nil_r.
Qed.

Lemma main_receive_loop_spec client_id rs w :
  let r := Main.receive_loop client_id rs w in
  Main.connected_clients r.2 = Main.connected_clients w ∧
  (∀ e, r.1 = Raise e → In (Raised e) rs) ∧
  (Exists (fun c => leaves_loop c = true) rs → r.1 ≠ Return Receiving).
Proof.
  revert w. induction rs as [|r rs IH]; intros w.
  - simpl. split_and!; try done. intros Hex. by apply Exists_nil in Hex.
  - destruct r as [|[[data|] [t|]]|e']; simpl; unfold bind.
    + rewrite main_no_voice_activity_new.
      destruct (IH w) as (Hc & Hr & Hx). split_and!; [done| |].
      * intros e He. right. by apply Hr.
      * intros Hex. apply Exists_cons in Hex as [?|Hex]; [done|by apply Hx].
    + rewrite main_process_audio_frame_new.
      destruct (IH (Main.set_host (emit (Log (Debug_received_from client_id))) w))
        as (Hc & Hr & Hx). split_and!; [done| |].
      * intros e He. right. by apply Hr.
      * intros Hex. apply Exists_cons in Hex as [?|Hex]; [done|by apply Hx].
    + rewrite main_process_audio_frame_new.
      destruct (IH (Main.set_host (emit (Log (Debug_received_from client_id))) w))
        as (Hc & Hr & Hx). split_and!; [done| |].
      * intros e He. right. by apply Hr.
      * intros Hex. apply Exists_cons in Hex as [?|Hex]; [done|by apply Hx].
    + destruct (String.eqb t "close()") eqn:Ht.
      * rewrite main_no_voice_activity_new. simpl. by split_and!.
      * destruct (IH w) as (Hc & Hr & Hx). split_and!; [done| |].
        -- intros e He. right. by apply Hr.
        -- intros Hex. apply Exists_cons in Hex as [Hh|Hex]; [|by apply Hx].
           simpl in Hh. congruence.
    + simpl. by split_and!.
    + simpl. split_and!; try done. intros e [= ->]. by left.
Qed.

(** X10. The handler of [main.py] registers the client on entry and, however
    the loop is left, unregisters it: while it is suspended the connection
    table is the old one with the client added, when it is over the old one
    with the client removed. The close token, a message with neither key and
    an exception out of [receive] end it; only a cancellation out of
    [receive] propagates. *)
Theorem X10_main_handler_registers_and_unregisters websocket client_id rs w :
  let r := Main.get_audio websocket client_id rs w in
  (r.1 = Suspended →
   Main.connected_clients r.2 = <[client_id := websocket]> (Main.connected_clients w)) ∧
  (r.1 ≠ Suspended →
   Main.connected_clients r.2 = delete client_id (Main.connected_clients w)) ∧
  (Exists (fun c => leaves_loop c = true) rs → r.1 ≠ Suspended) ∧
  (∀ e, r.1 = Propagated e → is_Exception e = false ∧ In (Raised e) rs).
Proof.
  intros r. unfold r, Main.get_audio.
  set (w0 := Main.accept_block websocket client_id w).
  destruct (main_receive_loop_spec client_id rs w0) as (Hc & Hr & Hx).
  assert (Hfin : ∀ w1, Main.connected_clients w1 = Main.connected_clients w0 →
                       Main.connected_clients (Main.finally_block client_id w1) =
                       delete client_id (Main.connected_clients w)).
  { intros w1 H1. unfold Main.finally_block.
    rewrite main_pop_clients_audios_new. simpl. rewrite H1. unfold w0. simpl.
    apply delete_insert_eq. }
  destruct (Main.receive_loop client_id rs w0) as [[[]|e] w1]; simpl in *.
  - split_and!; try done. intros _. by apply Hfin.
  - split_and!; try done. intros Hex Hs. by apply Hx.
  - destruct (is_Exception e) eqn:Hex; simpl; split_and!; try done.
    + intros _. by apply Hfin.
    + intros _. by apply Hfin.
    + intros e' [= <-]. split; [done|]. by apply Hr.
Qed.

Lemma X9_main_service_on_one_object_witness :
  Main.clients_audios (Main.self {| Main.self := Main.init; Main.env := os0 |}) !! "abc"
    = None ∧
  [[x00; x01]; [x02; x03]] ≠ [] ∧
  ("abc.webm" ∉ unwritable os0) ∧
  (let s1 := (main_append_all [[x00; x01]; [x02; x03]] "abc"
                {| Main.self := Main.init; Main.env := os0 |}).2 in
   files (Main.env (Main.no_voice_activity "abc" (-1) s1).2) =
     <["abc.webm" := RawFile [x00; x01; x02; x03]]> ∅).
Proof.
  assert (Hfresh : Main.clients_audios
                     (Main.self {| Main.self := Main.init; Main.env := os0 |}) !! "abc"
                   = None) by reflexivity.
  assert (Hne : [[x00; x01]; [x02; x03]] ≠ []) by discriminate.
  assert (Hw : "abc.webm" ∉ unwritable os0) by apply not_elem_of_empty.
  split; [exact Hfresh|]. split; [exact Hne|]. split; [exact Hw|].
  destruct (X9_main_service_on_one_object "abc" _ (-1)
              {| Main.self := Main.init; Main.env := os0 |} Hfresh Hne Hw)
    as (_ & _ & Hf & _).
  exact Hf.
Defined.

Lemma X10_main_handler_registers_and_unregisters_witness :
  (Main.get_audio 1%nat "abc" [binary [x00]; text "close()"] boot_main).1 ≠ Suspended ∧
  Main.connected_clients
    (Main.get_audio 1%nat "abc" [binary [x00]; text "close()"] boot_main).2 =
  delete "abc" ∅.
Proof.
  assert (Hover : (Main.get_audio 1%nat "abc" [binary [x00]; text "close()"]
                     boot_main).1 ≠ Suspended) by (vm_compute; discriminate).
  split; [exact Hover|].
  destruct (X10_main_handler_registers_and_unregisters 1%nat "abc"
              [binary [x00]; text "close()"] boot_main) as (_ & Hdel & _).
  exact (Hdel Hover).
Defined.

(** ** Bytes of the waveform file *)

Lemma byte_to_Z_of_Z z : byte_to_Z (byte_of_Z z) = z mod 256.
Proof.
  unfold byte_to_Z, byte_of_Z.
  pose proof (Z.mod_pos_bound z 256 ltac:(lia)) as Hb.
  destruct (Byte.of_N (Z.to_N (z mod 256))) as [b|] eqn:E.
  - apply Byte.to_of_N in E. rewrite E. lia.
  - apply Byte.of_N_None_iff in E. lia.
Qed.

Lemma word_of_le_of_word z :
  0 ≤ z < 2 ^ 32 →
  match le_of_word z with
  | [b0; b1; b2; b3] => word_of_le b0 b1 b2 b3 = z
  | _ => False
  end.
Proof.
  intros Hz. unfold le_of_word, word_of_le. rewrite !byte_to_Z_of_Z.
  replace (z / 16777216) with (z / 256 / 256 / 256)
    by (rewrite !Z.div_div by lia; reflexivity).
  replace (z / 65536) with (z / 256 / 256)
    by (rewrite !Z.div_div by lia; reflexivity).
  change (2 ^ 32) with (256 * (256 * (256 * 256))) in Hz.
  pose proof (Z.div_mod z 256 ltac:(lia)) as H0.
  pose proof (Z.div_mod (z / 256) 256 ltac:(lia)) as H1.
  pose proof (Z.div_mod (z / 256 / 256) 256 ltac:(lia)) as H2.
  pose proof (Z.mod_pos_bound z 256 ltac:(lia)) as B0.
  pose proof (Z.mod_pos_bound (z / 256) 256 ltac:(lia)) as B1.
  pose proof (Z.mod_pos_bound (z / 256 / 256) 256 ltac:(lia)) as B2.
  assert (0 ≤ z / 256 / 256 / 256 < 256) as B3 by lia.
  rewrite (Z.mod_small (z / 256 / 256 / 256) 256) by lia.
  lia.
Qed.

Lemma frombuffer_float32_tobytes a :
  frombuffer_float32 (tobytes a) = Some (map (fun z => z mod 2 ^ 32) a).
Proof.
  induction a as [|z a IH]; [done|].
  unfold tobytes in *. cbn [flat_map].
  pose proof (word_of_le_of_word (z mod 2 ^ 32)
                (Z.mod_pos_bound z (2 ^ 32) ltac:(lia))) as Hw.
  unfold le_of_word in *. cbn [app frombuffer_float32].
  rewrite IH. cbn [map]. by rewrite Hw.
Qed.

Lemma whole_samples_app_tail data tail :
  (length data mod 4 = 0)%nat → (length tail < 4)%nat →
  whole_samples (data ++ tail) = data.
Proof.
  intros Hm Ht. unfold whole_samples. rewrite length_app.
  pose proof (Nat.div_mod_eq (length data) 4) as Hd. rewrite Hm in Hd.
  assert (Hq : ((length data + length tail) / 4 = length data / 4)%nat).
  { rewrite Hd at 1. rewrite Nat.add_0_r.
    rewrite (Nat.mul_comm 4), Nat.div_add_l by lia.
    rewrite (Nat.div_small (length tail)) by lia. lia. }
  rewrite Hq. apply take_app_length'. lia.
Qed.

Lemma frombuffer_float32_app a b ws :
  frombuffer_float32 a = Some ws →
  frombuffer_float32 (a ++ b) = (ws ++.) <$> frombuffer_float32 b.
Proof.
  revert ws. induction a as [a IH] using (induction_ltof1 _ (@length byte)).
  unfold ltof in IH. intros ws Hws.
  destruct a as [|b0 [|b1 [|b2 [|b3 rest]]]]; try done.
  - injection Hws as <-. simpl. by destruct (frombuffer_float32 b).
  - simpl in Hws. destruct (frombuffer_float32 rest) as [ws'|] eqn:E; [|done].
    injection Hws as <-. cbn [app frombuffer_float32].
    rewrite (IH rest ltac:(simpl; lia) ws' E).
    by destruct (frombuffer_float32 b).
Qed.

Lemma float32_samples_aligned a b :
  (length a mod 4 = 0)%nat →
  float32_samples (a ++ b) = float32_samples a ++ float32_samples b.
Proof.
  intros Hm.
  pose proof (Nat.div_mod_eq (length a) 4) as Hd. rewrite Hm in Hd.
  assert (Hwa : whole_samples a = a).
  { unfold whole_samples. apply take_ge. lia. }
  assert (Hw : whole_samples (a ++ b) = a ++ whole_samples b).
  { unfold whole_samples. rewrite length_app.
    assert (Hq : ((length a + length b) / 4 * 4 = length a + length b / 4 * 4)%nat).
    { rewrite Hd at 1. rewrite Nat.add_0_r.
      rewrite (Nat.mul_comm 4), Nat.div_add_l by lia. lia. }
    rewrite Hq. by rewrite take_app_add. }
  unfold float32_samples. rewrite Hw, Hwa.
  destruct (frombuffer_float32_multiple (length a / 4) a ltac:(lia)) as (ws & Hws & _).
  rewrite (frombuffer_float32_app a _ ws Hws), Hws.
  destruct (frombuffer_whole_samples b) as (ws' & -> & _). done.
Qed.

Section FrameProperties.
Context `{Platform}.

(** X11. [save_wav] ignores up to three trailing bytes that do not make a
    whole sample: the call has the same effect with and without them. *)
Theorem X11_trailing_bytes_are_ignored data tail filename s :
  (length data mod 4 = 0)%nat →
  (length tail < 4)%nat →
  App.save_wav (data ++ tail) filename s = App.save_wav data filename s ∧
  float32_samples (data ++ tail) = float32_samples data.
Proof.
  intros Hm Ht.
  assert (Hs : float32_samples (data ++ tail) = float32_samples data).
  { unfold float32_samples. rewrite whole_samples_app_tail by done.
    replace (whole_samples data) with data; [done|].
    symmetry. rewrite <- (app_nil_r data) at 1.
    apply whole_samples_app_tail; simpl; [done|lia]. }
  split; [|exact Hs].
  rewrite !save_wav_eq. unfold wav_of. by rewrite Hs.
Qed.

(** X12. When every chunk is made of whole samples, the frames of the
    waveform file are the frames that each chunk would give, one after the
    other. *)
Theorem X12_frames_of_aligned_chunks chunks :
  Forall (fun c : bytes => (length c mod 4 = 0)%nat) chunks →
  frames (wav_of (b_join chunks)) = concat (map (fun c => frames (wav_of c)) chunks).
Proof.
  intros Hall. unfold wav_of. simpl.
  induction Hall as [|c cs Hc _ IH]; [done|].
  unfold b_join in *. cbn [concat map].
  rewrite float32_samples_aligned by done.
  rewrite map_app. unfold tobytes in *. rewrite flat_map_app. by rewrite IH.
Qed.

(** X13. The frames written hold one word of 4 bytes for each whole sample
    of the input: read back, least significant byte first, they are the
    scaled samples as 32-bit patterns. *)
Theorem X13_frames_read_back data :
  frombuffer_float32 (frames (wav_of data)) =
    Some (map (fun w => scale_sample w mod 2 ^ 32) (float32_samples data)) ∧
  length (frames (wav_of data)) = (4 * (length data / 4))%nat.
Proof.
  unfold wav_of. simpl. split.
  - rewrite frombuffer_float32_tobytes. by rewrite map_map.
  - by rewrite tobytes_length, length_map, float32_samples_length.
Qed.

End FrameProperties.

Lemma X11_trailing_bytes_are_ignored_witness :
  (length [x00; x00; x80; x3f] mod 4 = 0)%nat ∧
  (length [x01; x02; x03] < 4)%nat ∧
  float32_samples ([x00; x00; x80; x3f] ++ [x01; x02; x03]) =
  float32_samples [x00; x00; x80; x3f].
Proof.
  assert (Hm : (length [x00; x00; x80; x3f] mod 4 = 0)%nat) by reflexivity.
  assert (Ht : (length [x01; x02; x03] < 4)%nat) by (simpl; lia).
  split; [exact Hm|]. split; [exact Ht|].
  exact (proj2 (X11_trailing_bytes_are_ignored (H := x86_64)
                  [x00; x00; x80; x3f] [x01; x02; x03] "abc.wav" frame0 Hm Ht)).
Defined.

Lemma X12_frames_of_aligned_chunks_witness :
  Forall (fun c : bytes => (length c mod 4 = 0)%nat)
    [[x00; x00; x80; x3f]; [x00; x00; x00; x3f]] ∧
  frames (wav_of (H := x86_64) (b_join [[x00; x00; x80; x3f]; [x00; x00; x00; x3f]])) =
  concat (map (fun c => frames (wav_of (H := x86_64) c))
            [[x00; x00; x80; x3f]; [x00; x00; x00; x3f]]).
Proof.
  assert (Hall : Forall (fun c : bytes => (length c mod 4 = 0)%nat)
                   [[x00; x00; x80; x3f]; [x00; x00; x00; x3f]])
    by (repeat constructor).
  split; [exact Hall|].
  exact (X12_frames_of_aligned_chunks (H := x86_64) _ Hall).
Defined.

(** ** Samples of magnitude at most 1 *)

Lemma shr_1_m mrs : 0 ≤ shr_m mrs → shr_m (shr_1 mrs) = shr_m mrs / 2.
Proof.
  destruct mrs as [m r s]. cbn [shr_m]. intros Hm.
  destruct m as [|[p|p|]|p]; cbn [shr_1 shr_m]; try lia; try reflexivity.
  - rewrite Pos2Z.inj_xI. apply (Z.div_unique (2 * Zpos p + 1) 2 (Zpos p) 1); lia.
  - rewrite Pos2Z.inj_xO. apply (Z.div_unique (2 * Zpos p) 2 (Zpos p) 0); lia.
Qed.

Lemma iter_pos_shr_1_m p : ∀ mrs,
  0 ≤ shr_m mrs →
  shr_m (SpecFloat.iter_pos shr_1 p mrs) = shr_m mrs / 2 ^ Zpos p.
Proof.
  induction p as [p IH|p IH|]; intros mrs Hm; cbn [SpecFloat.iter_pos].
  - assert (H1 : 0 ≤ shr_m (shr_1 mrs)).
    { rewrite shr_1_m by done. apply Z.div_pos; lia. }
    assert (H2 : 0 ≤ shr_m (SpecFloat.iter_pos shr_1 p (shr_1 mrs))).
    { rewrite IH by done. apply Z.div_pos; lia. }
    assert (Hpow : 2 ^ Zpos p~1 = 2 * 2 ^ Zpos p * 2 ^ Zpos p).
    { rewrite Pos2Z.inj_xI.
      replace (2 * Z.pos p + 1) with (1 + Z.pos p + Z.pos p) by lia.
      rewrite !Z.pow_add_r by lia. lia. }
    rewrite IH, IH, shr_1_m by done.
    rewrite !Z.div_div by lia. rewrite Hpow. f_equal. lia.
  - assert (H2 : 0 ≤ shr_m (SpecFloat.iter_pos shr_1 p mrs)).
    { rewrite IH by done. apply Z.div_pos; lia. }
    assert (Hpow : 2 ^ Zpos p~0 = 2 ^ Zpos p * 2 ^ Zpos p).
    { rewrite <- Z.pow_add_r by lia. f_equal. rewrite Pos2Z.inj_xO. lia. }
    rewrite IH, IH by done.
    rewrite !Z.div_div by lia. rewrite Hpow. f_equal.
  - by rewrite shr_1_m.
Qed.

Lemma digits2_pos_lower p : 2 ^ (Zpos (digits2_pos p) - 1) ≤ Zpos p.
Proof.
  induction p as [p IH|p IH|]; simpl digits2_pos.
  - rewrite Pos2Z.inj_succ.
    replace (Z.succ (Z.pos (digits2_pos p)) - 1) with (1 + (Z.pos (digits2_pos p) - 1))
      by lia.
    rewrite Z.pow_add_r by lia. lia.
  - rewrite Pos2Z.inj_succ.
    replace (Z.succ (Z.pos (digits2_pos p)) - 1) with (1 + (Z.pos (digits2_pos p) - 1))
      by lia.
    rewrite Z.pow_add_r by lia. lia.
  - done.
Qed.

(** A shift of the mantissa by [shr_fexp], for binary32. *)
Lemma shr_fexp_binary32 m e l :
  0 ≤ m →
  let r := shr_fexp 24 128 m e l in
  r.2 = Z.max e (fexp 24 128 (Zdigits2 m + e)) ∧
  shr_m r.1 = m / 2 ^ (r.2 - e).
Proof.
  intros Hm r. unfold r, shr_fexp, shr.
  assert (Hrec : shr_m (shr_record_of_loc m l) = m) by by destruct l as [|[]].
  destruct (fexp 24 128 (Zdigits2 m + e) - e) as [|p|p] eqn:E; simpl.
  - split; [lia|]. rewrite Hrec, Z.sub_diag. simpl. by rewrite Z.div_1_r.
  - split; [lia|]. rewrite iter_pos_shr_1_m by lia. rewrite Hrec.
    f_equal. f_equal. lia.
  - split; [lia|]. rewrite Hrec, Z.sub_diag. simpl. by rewrite Z.div_1_r.
Qed.

Lemma round_nearest_even_bounds m l :
  m ≤ round_nearest_even m l ≤ m + 1.
Proof.
  unfold round_nearest_even. destruct l as [|[]]; try lia.
  destruct (Z.even m); lia.
Qed.

(** The exponent [shr_fexp] settles on, for a mantissa below [2 ^ (15 - e)]. *)
Lemma shr_fexp_exponent m e :
  0 ≤ m < 2 ^ (15 - e) → e ≤ -9 →
  Z.max e (fexp 24 128 (Zdigits2 m + e)) ≤ -9 ∨ m = 0.
Proof.
  intros [Hm Hlt] He.
  destruct m as [|p|p]; [by right| |lia]. left.
  simpl Zdigits2. pose proof (digits2_pos_lower p) as Hd.
  assert (Hdig : Zpos (digits2_pos p) - 1 < 15 - e).
  { apply (Z.pow_lt_mono_r_iff 2); lia. }
  unfold fexp, emin. lia.
Qed.

Lemma binary32_mul_32767_unit_range s m e :
  e ≤ 0 → Zpos m ≤ 2 ^ (- e) →
  ∃ z, truncate (binary32_mul (S754_finite s m e) binary32_32767) = Some z ∧
       -32767 ≤ z ≤ 32767.
Proof.
  intros He Hm.
  unfold binary32_mul, binary32_32767, SFmul, binary_round_aux.
  set (mz := Zpos (m * 16776704)). set (ez := e + -9).
  assert (Hmz : 0 ≤ mz ≤ 32767 * 2 ^ (- ez)).
  { unfold mz, ez. rewrite Pos2Z.inj_mul. split; [lia|].
    replace (- (e + -9)) with (9 + - e) by lia.
    rewrite Z.pow_add_r by lia. change (2 ^ 9) with 512. nia. }
  assert (Hez : ez ≤ -9) by (unfold ez; lia).
  assert (Hmzpos : 0 < mz) by (unfold mz; lia).
  clearbody mz ez.
  assert (Hp15 : ∀ k, 2 ^ (15 - k) = 32768 * 2 ^ (- k) ∨ 0 < k).
  { intros k. destruct (Z.le_gt_cases k 0); [left|by right].
    replace (15 - k) with (15 + - k) by lia. by rewrite Z.pow_add_r by lia. }
  assert (Hpowpos : ∀ k, 0 < 2 ^ k ∨ k < 0).
  { intros k. destruct (Z.le_gt_cases 0 k); [left|by right].
    by apply Z.pow_pos_nonneg. }
  (* first shift *)
  destruct (shr_fexp_binary32 mz ez loc_Exact (proj1 Hmz)) as [He1 Hm1].
  destruct (shr_fexp 24 128 mz ez loc_Exact) as [mrs1 e1]. cbn [fst snd] in He1, Hm1.
  assert (Hmz15 : 0 ≤ mz < 2 ^ (15 - ez)).
  { destruct (Hp15 ez) as [-> |]; [|lia].
    destruct (Hpowpos (- ez)); lia. }
  assert (He1' : e1 ≤ -9).
  { destruct (shr_fexp_exponent mz ez Hmz15 Hez) as [Hle | H0]; lia. }
  assert (He1ge : ez ≤ e1) by lia.
  assert (Hm1b : 0 ≤ shr_m mrs1 ≤ 32767 * 2 ^ (- e1)).
  { rewrite Hm1. split.
    - apply Z.div_pos; [lia|]. destruct (Hpowpos (e1 - ez)); lia.
    - apply Z.div_le_upper_bound; [destruct (Hpowpos (e1 - ez)); lia|].
      replace (- ez) with ((e1 - ez) + - e1) in Hmz by lia.
      rewrite Z.pow_add_r in Hmz by lia. lia. }
  (* rounding *)
  set (m1 := round_nearest_even (shr_m mrs1) (loc_of_shr_record mrs1)).
  pose proof (round_nearest_even_bounds (shr_m mrs1) (loc_of_shr_record mrs1)) as Hr.
  fold m1 in Hr.
  assert (Hm1' : 0 ≤ m1 < 2 ^ (15 - e1)).
  { destruct (Hp15 e1) as [-> |]; [|lia].
    assert (512 ≤ 2 ^ (- e1)).
    { change 512 with (2 ^ 9). apply Z.pow_le_mono_r; lia. }
    lia. }
  (* second shift *)
  destruct (shr_fexp_binary32 m1 e1 loc_Exact (proj1 Hm1')) as [He2 Hm2].
  destruct (shr_fexp 24 128 m1 e1 loc_Exact) as [mrs2 e2]. cbn [fst snd] in He2, Hm2.
  assert (He2ge : e1 ≤ e2) by lia.
  assert (Hm2nn : 0 ≤ shr_m mrs2).
  { rewrite Hm2. apply Z.div_pos; [lia|]. destruct (Hpowpos (e2 - e1)); lia. }
  destruct (shr_m mrs2) as [|m2|m2] eqn:Em2; [| |lia].
  - exists 0. simpl. split; [done|lia].
  - assert (Hm1pos : m1 ≠ 0).
    { intros H0. rewrite H0 in Hm2. by rewrite Z.div_0_l in Hm2
        by (destruct (Hpowpos (e2 - e1)); lia). }
    assert (He2' : e2 ≤ -9).
    { destruct (shr_fexp_exponent m1 e1 Hm1' He1') as [Hle | H0]; [lia|done]. }
    assert (Hm2b : Zpos m2 < 2 ^ (15 - e2)).
    { rewrite Hm2. apply Z.div_lt_upper_bound; [destruct (Hpowpos (e2 - e1)); lia|].
      rewrite <- Z.pow_add_r by lia.
      replace (e2 - e1 + (15 - e2)) with (15 - e1) by lia. lia. }
    destruct (Z.leb_spec e2 (128 - 24)) as [_|Hbad]; [|lia].
    simpl truncate.
    destruct (Z.leb_spec 0 e2) as [Hbad|_]; [lia|].
    assert (Ha : 0 ≤ Zpos m2 / 2 ^ (- e2) ≤ 32767).
    { split.
      - apply Z.div_pos; [lia|]. destruct (Hpowpos (- e2)); lia.
      - assert (Zpos m2 / 2 ^ (- e2) < 32768); [|lia].
        apply Z.div_lt_upper_bound; [destruct (Hpowpos (- e2)); lia|].
        destruct (Hp15 e2) as [Heq |]; [|lia]. lia. }
    eexists. split; [reflexivity|].
    destruct (xorb s false); lia.
Qed.

Section UnitRange.
Context `{Platform}.

Lemma scale_unit_range x :
  unit_range x →
  -32767 ≤ astype_int32 (binary32_mul x binary32_32767) ≤ 32767.
Proof.
  destruct x as [s| | |s m e]; cbn [unit_range].
  - intros _. rewrite (astype_int32_in_range _ 0); [lia|reflexivity|lia].
  - done.
  - done.
  - intros [He Hm].
    destruct (binary32_mul_32767_unit_range s m e He Hm) as (z & Hz & Hb).
    rewrite (astype_int32_in_range _ z Hz); lia.
Qed.

End UnitRange.





(** ** The two variants side by side *)

Section Variants.
Context `{Platform}.

Lemma loops_agree client_id rs : ∀ w wm,
  client_id +:+ ".webm" ∉ unwritable (App.host w) →
  App.connected_clients w = Main.connected_clients wm →
  let ra := App.receive_loop client_id rs w in
  let rm := Main.receive_loop client_id rs wm in
  ra.1 = rm.1 ∧ App.connected_clients ra.2 = Main.connected_clients rm.2.
Proof.
  induction rs as [|r rs IH]; intros w wm Hw Hc; [done|].
  assert (Hnva : ∃ w1, App.on_singleton (App.no_voice_activity client_id (-1)) w
                       = (Return tt, w1) ∧
                       (client_id +:+ ".webm" ∉ unwritable (App.host w1)) ∧
                       App.connected_clients w1 = App.connected_clients w).
  { pose proof (on_singleton_fst (App.no_voice_activity client_id (-1)) w) as E.
    rewrite no_voice_activity_writable in E by done.
    destruct (on_singleton_no_voice_activity_steady client_id (-1) w) as [Hc1 [Hu1 _]].
    destruct (App.on_singleton _ w) as [r1 w1]; simpl in *. subst r1.
    exists w1. split; [done|]. split; [by rewrite Hu1|done]. }
  assert (Hpaf : ∀ data,
            ∃ w1, App.on_singleton (App.process_audio_frame data client_id) w
                  = (Return tt, w1) ∧
                  (client_id +:+ ".webm" ∉ unwritable (App.host w1)) ∧
                  App.connected_clients w1 = App.connected_clients w).
  { intros data.
    pose proof (on_singleton_fst (App.process_audio_frame data client_id) w) as E.
    rewrite process_audio_frame_returns in E.
    destruct (on_singleton_process_audio_frame_steady data client_id w)
      as [Hc1 [Hu1 _]].
    destruct (App.on_singleton (App.process_audio_frame data client_id) w)
      as [r1 w1]; simpl in *. subst r1.
    exists w1. split; [done|]. split; [by rewrite Hu1|done]. }
  destruct r as [|[[data|] [t|]]|e]; simpl; unfold bind.
  - destruct Hnva as (w1 & -> & Hw1 & Hc1). rewrite main_no_voice_activity_new.
    apply IH; [done|congruence].
  - destruct (Hpaf data) as (w1 & -> & Hw1 & Hc1).
    rewrite main_process_audio_frame_new. apply IH; [done|]. simpl. congruence.
  - destruct (Hpaf data) as (w1 & -> & Hw1 & Hc1).
    rewrite main_process_audio_frame_new. apply IH; [done|]. simpl. congruence.
  - destruct (String.eqb t "close()").
    + destruct Hnva as (w1 & -> & Hw1 & Hc1). rewrite main_no_voice_activity_new.
      simpl. split; [done|congruence].
    + by apply IH.
  - done.
  - done.
Qed.

(** X15. As long as the raw file of the client can be opened, the handlers of
    the two variants, run on the same completions from the same connection
    table, stand alike at the end (suspended, returned or left by the same
    exception) and leave the same connection table. What differs is the
    files. *)
Theorem X15_variants_agree_on_connections websocket client_id rs w wm :
  client_id +:+ ".webm" ∉ unwritable (App.host w) →
  App.connected_clients w = Main.connected_clients wm →
  let ra := App.get_audio websocket client_id rs w in
  let rm := Main.get_audio websocket client_id rs wm in
  ra.1 = rm.1 ∧ App.connected_clients ra.2 = Main.connected_clients rm.2.
Proof.
  intros Hw Hc ra rm. unfold ra, rm, App.get_audio, Main.get_audio.
  destruct (loops_agree client_id rs
              (App.accept_block websocket client_id w)
              (Main.accept_block websocket client_id wm)) as [Hr Hcc].
  { done. }
  { simpl. by rewrite Hc. }
  assert (Hfin : ∀ w1 wm1,
            App.connected_clients w1 = Main.connected_clients wm1 →
            App.connected_clients (App.finally_block client_id w1) =
            Main.connected_clients (Main.finally_block client_id wm1)).
  { intros w1 wm1 H1. unfold App.finally_block, Main.finally_block.
    rewrite main_pop_clients_audios_new.
    pose proof (on_singleton_connected_clients (App.pop_clients_audios client_id) w1)
      as Hp.
    destruct (App.on_singleton _ w1) as [r2 w2]; simpl in *. congruence. }
  destruct (App.receive_loop client_id rs _) as [[[]|e] w1];
    destruct (Main.receive_loop client_id rs _) as [[[]|e'] wm1];
    simpl in *; try discriminate.
  - split; [done|]. by apply Hfin.
  - done.
  - injection Hr as <-.
    destruct (is_Exception e); simpl; (split; [done|]); by apply Hfin.
Qed.

End Variants.

Lemma X15_variants_agree_on_connections_witness :
  ("abc.webm" ∉ unwritable (App.host boot)) ∧
  App.connected_clients boot = Main.connected_clients boot_main ∧
  (App.get_audio (H := x86_64) 1%nat "abc" [binary [x00]; TimeoutError] boot).1 =
  (Main.get_audio 1%nat "abc" [binary [x00]; TimeoutError] boot_main).1.
Proof.
  assert (Hw : "abc.webm" ∉ unwritable (App.host boot)) by apply not_elem_of_empty.
  assert (Hc : App.connected_clients boot = Main.connected_clients boot_main)
    by reflexivity.
  split; [exact Hw|]. split; [exact Hc|].
  exact (proj1 (X15_variants_agree_on_connections (H := x86_64) 1%nat "abc"
                  [binary [x00]; TimeoutError] boot boot_main Hw Hc)).
Defined.
